(** * TikTokDownloader: a shallow embedding of [src/TikTokDownloader.ts]

    The development follows the source file top to bottom:

    - JavaScript strings are sequences of UTF-16 code units;
    - the regular expressions of the source are terms of a small regex
      syntax, run by a backtracking matcher with the priorities of the
      JavaScript engine (leftmost start, greedy quantifiers);
    - values read from JSON are an inductive type, objects being finite maps;
    - the methods that talk to the network run in a small monad that threads
      a trace of outbound effects and may throw. *)

From Stdlib Require Import NArith ZArith Ascii String List Lia Bool DecimalString.
From stdpp Require Import base option list gmap.

Local Open Scope N_scope.

(** ** JavaScript strings *)

(** A code unit is a 16-bit number; a string is the list of its code units. *)
Abbreviation char := N (only parsing).
Abbreviation jsstring := (list N) (only parsing).

(** [str] embeds an ASCII literal of the source. *)
Definition str (s : String.string) : jsstring :=
  List.map N_of_ascii (list_ascii_of_string s).
Arguments str : simpl never.

(** [WhiteSpace] and [LineTerminator] of ECMAScript, what [String.prototype.trim]
    strips. *)
Definition is_white (c : char) : bool :=
  (c =? 0x09) || (c =? 0x0A) || (c =? 0x0B) || (c =? 0x0C) || (c =? 0x0D)
  || (c =? 0x20) || (c =? 0xA0) || (c =? 0x1680)
  || ((0x2000 <=? c) && (c <=? 0x200A))
  || (c =? 0x2028) || (c =? 0x2029) || (c =? 0x202F) || (c =? 0x205F)
  || (c =? 0x3000) || (c =? 0xFEFF).

Fixpoint drop_while (p : char -> bool) (s : jsstring) : jsstring :=
  match s with
  | [] => []
  | c :: s' => if p c then drop_while p s' else s
  end.

Fixpoint take_while (p : char -> bool) (s : jsstring) : jsstring :=
  match s with
  | [] => []
  | c :: s' => if p c then c :: take_while p s' else []
  end.

Definition trim_start (s : jsstring) : jsstring := drop_while is_white s.
Definition trim_end (s : jsstring) : jsstring := rev (drop_while is_white (rev s)).

(** [String.prototype.trim] *)
Definition trim (s : jsstring) : jsstring := trim_end (trim_start s).

(** [strip_prefix p s] is [Some t] when [s = p ++ t]. *)
Fixpoint strip_prefix (p s : jsstring) : option jsstring :=
  match p, s with
  | [], _ => Some s
  | a :: p', b :: s' => if a =? b then strip_prefix p' s' else None
  | _ :: _, [] => None
  end.

(** [String.prototype.includes] *)
Fixpoint includes (sub s : jsstring) : bool :=
  match strip_prefix sub s with
  | Some _ => true
  | None => match s with
            | [] => false
            | _ :: s' => includes sub s'
            end
  end.

(** ** Regular expressions *)

(** Character classes of the source's patterns. *)
Definition is_digit (c : char) : bool := (0x30 <=? c) && (c <=? 0x39).
Definition not_slash (c : char) : bool := negb (c =? 0x2F).
Definition is_alnum (c : char) : bool :=
  ((0x41 <=? c) && (c <=? 0x5A)) || ((0x61 <=? c) && (c <=? 0x7A)) || is_digit c.

(** The fragment of the regex syntax that the source uses. *)
Inductive regex : Type :=
| Lit (l : jsstring)            (* a run of literal characters *)
| Opt (r : regex)               (* (?:r)? and x? *)
| Plus (c : char -> bool)       (* \d+  [^/]+  [A-Za-z0-9]+ *)
| Seq (r1 r2 : regex)
| Group (r : regex).            (* ( r ), a capturing group *)

(** What a successful run leaves: the unread rest of the input and the
    captures, group 1 first. A capture is recorded when its group closes;
    the patterns of the source have one group at most. *)
Definition outcome : Type := jsstring * list jsstring.

(** Greedy [c*] followed by the continuation [k]: the longest run first,
    giving characters back one at a time when [k] fails. *)
Fixpoint star (c : char -> bool) (s : jsstring) (k : jsstring -> option outcome)
  : option outcome :=
  match s with
  | a :: s' =>
      if c a then
        match star c s' k with
        | Some x => Some x
        | None => k s
        end
      else k s
  | [] => k []
  end.

(** The backtracking matcher, in continuation-passing style. *)
Fixpoint rmatch (r : regex) (s : jsstring) (caps : list jsstring)
    (k : jsstring -> list jsstring -> option outcome) : option outcome :=
  match r with
  | Lit l =>
      match strip_prefix l s with
      | Some s' => k s' caps
      | None => None
      end
  | Opt r' =>
      match rmatch r' s caps k with
      | Some x => Some x
      | None => k s caps
      end
  | Plus c =>
      match s with
      | a :: s' => if c a then star c s' (fun t => k t caps) else None
      | [] => None
      end
  | Seq r1 r2 => rmatch r1 s caps (fun s' caps' => rmatch r2 s' caps' k)
  | Group r' =>
      rmatch r' s caps
        (fun s' caps' => k s' (caps' ++ [take (length s - length s') s]))
  end.

(** One attempt at the current position. *)
Definition exec_here (r : regex) (s : jsstring) : option outcome :=
  rmatch r s [] (fun rest caps => Some (rest, caps)).

(** The match array of JavaScript: [m0] is [match[0]], [groups] are
    [match[1]], [match[2]], ... *)
Record match_array : Type := MatchArray {
  m0 : jsstring;
  groups : list jsstring
}.

Definition matched (s : jsstring) (o : outcome) : match_array :=
  MatchArray (take (length s - length (fst o)) s) (snd o).

(** An unanchored search: the first start position that matches wins. *)
Fixpoint search (r : regex) (s : jsstring) : option match_array :=
  match exec_here r s with
  | Some o => Some (matched s o)
  | None =>
      match s with
      | [] => None
      | _ :: s' => search r s'
      end
  end.

(** A pattern is a regex with or without a leading [^]. *)
Record pattern : Type := Pattern {
  anchored : bool;
  body : regex
}.

(** [RegExp.prototype.exec] without flags, which is also
    [String.prototype.match]. *)
Definition re_exec (p : pattern) (s : jsstring) : option match_array :=
  if anchored p then
    match exec_here (body p) s with
    | Some o => Some (matched s o)
    | None => None
    end
  else search (body p) s.

(** [RegExp.prototype.test] *)
Definition re_test (p : pattern) (s : jsstring) : bool :=
  match re_exec p s with Some _ => true | None => false end.

(** ** The URL helpers of [TikTokDownloader] *)

Module Re.
(** [https?:\/\/] *)
Definition scheme : regex :=
  Seq (Seq (Lit (str "http")) (Opt (Lit (str "s")))) (Lit (str "://")).

(** [(?:www\.)?] *)
Definition www : regex := Opt (Lit (str "www.")).

(** [tiktok\.com\/@[^/]+\/video\/\d+] *)
Definition handle_video : regex :=
  Seq (Seq (Seq (Lit (str "tiktok.com/@")) (Plus not_slash))
           (Lit (str "/video/")))
      (Plus is_digit).

(** [/(?:https?:\/\/)?(?:www\.)?tiktok\.com\/@[^/]+\/video\/\d+/] *)
Definition clean_canonical : pattern :=
  Pattern false (Seq (Seq (Opt scheme) www) handle_video).

(** [/^https?:\/\/(?:www\.)?tiktok\.com\/@[^/]+\/video\/\d+/] *)
Definition valid_canonical : pattern :=
  Pattern true (Seq (Seq scheme www) handle_video).

(** [/^https?:\/\/vm\.tiktok\.com\/[A-Za-z0-9]+/] *)
Definition valid_vm : pattern :=
  Pattern true (Seq (Seq scheme (Lit (str "vm.tiktok.com/"))) (Plus is_alnum)).

(** [/^https?:\/\/vt\.tiktok\.com\/[A-Za-z0-9]+/] *)
Definition valid_vt : pattern :=
  Pattern true (Seq (Seq scheme (Lit (str "vt.tiktok.com/"))) (Plus is_alnum)).

(** [/^https?:\/\/m\.tiktok\.com\/v\/\d+/] *)
Definition valid_mobile : pattern :=
  Pattern true (Seq (Seq scheme (Lit (str "m.tiktok.com/v/"))) (Plus is_digit)).

(** [/\/video\/(\d+)/], [/\/v\/(\d+)/], [/video_id=(\d+)/] *)
Definition id_after (prefix : jsstring) : pattern :=
  Pattern false (Seq (Lit prefix) (Group (Plus is_digit))).
End Re.

(** [cleanTikTokUrl] *)
Definition cleanTikTokUrl (url : jsstring) : jsstring :=
  let url := trim url in
  if includes (str "vm.tiktok.com") url || includes (str "vt.tiktok.com") url
  then url
  else
    match re_exec Re.clean_canonical url with
    | Some m => m0 m
    | None => url
    end.

(** [isValidTikTokUrl] *)
Definition isValidTikTokUrl (url : jsstring) : bool :=
  let patterns :=
    [Re.valid_canonical; Re.valid_vm; Re.valid_vt; Re.valid_mobile] in
  existsb (fun pattern => re_test pattern url) patterns.

(** The prefixes of the three identifier patterns, in the order tried. *)
Definition id_video : jsstring := str "/video/".
Definition id_v : jsstring := str "/v/".
Definition id_query : jsstring := str "video_id=".

(** [extractVideoId]: [None] is [null]. Each pattern has one group, so
    [match[1]] is the head of [groups]. *)
Fixpoint first_match (patterns : list pattern) (url : jsstring)
  : option jsstring :=
  match patterns with
  | [] => None
  | pattern :: rest =>
      match re_exec pattern url with
      | Some m => head (groups m)
      | None => first_match rest url
      end
  end.

Definition extractVideoId (url : jsstring) : option jsstring :=
  let patterns := [Re.id_after id_video; Re.id_after id_v; Re.id_after id_query] in
  first_match patterns url.


(** ** Values read from JSON, and [undefined] *)

#[warnings="-register-all"]
Inductive jsval : Type :=
| JUndefined
| JNull
| JBool (b : bool)
| JNum (n : Z)
| JStr (s : jsstring)
| JArr (items : list jsval)
| JObj (fields : gmap jsstring jsval).

(** [ToBoolean]: the falsy values are [undefined], [null], [false], [0] and
    the empty string. *)
Definition truthy (v : jsval) : bool :=
  match v with
  | JUndefined | JNull => false
  | JBool b => b
  | JNum n => negb (n =? 0)%Z
  | JStr s => match s with [] => false | _ => true end
  | JArr _ | JObj _ => true
  end.

(** [a || b] *)
Definition js_or (a b : jsval) : jsval := if truthy a then a else b.

(** ** Exceptions, effects and the monad of the asynchronous methods *)

Inductive exn : Type :=
| ErrorObj (message : jsstring)   (* an instance of Error *)
| NotAnError.                     (* any other thrown value *)

Inductive result (A : Type) : Type :=
| Ok (a : A)
| Throw (e : exn).
Arguments Ok {A} a.
Arguments Throw {A} e.

(** What a call does to the outside, in order. *)
Inductive event : Type :=
| EvGet (url : jsstring) (headers : list (jsstring * jsstring)) (timeout : Z)
| EvConsoleError (label : jsstring) (e : exn).

Definition M (A : Type) : Type := list event -> list event * result A.

Definition ret {A} (a : A) : M A := fun t => (t, Ok a).
Definition throw {A} (e : exn) : M A := fun t => (t, Throw e).
Definition bind {A B} (m : M A) (k : A -> M B) : M B :=
  fun t =>
    match m t with
    | (t', Ok a) => k a t'
    | (t', Throw e) => (t', Throw e)
    end.
Definition try_catch {A} (m : M A) (handler : exn -> M A) : M A :=
  fun t =>
    match m t with
    | (t', Ok a) => (t', Ok a)
    | (t', Throw e) => handler e t'
    end.
Definition lift {A} (r : result A) : M A := fun t => (t, r).
Definition emit (ev : event) : M unit := fun t => (t ++ [ev], Ok tt).

Notation "'let*' x ':=' m 'in' k" := (bind m (fun x => k))
  (at level 10, x name, m at level 100, k at level 200).
Notation "m ';;' k" := (bind m (fun _ => k))
  (at level 100, k at level 200, right associativity).

(** [v.k] and [v[k]]. Reading a property of [undefined] or [null] throws a
    TypeError; the keys read below are names of no built-in property, so a
    primitive or an array answers [undefined]. *)
Definition get_prop (v : jsval) (k : jsstring) : result jsval :=
  match v with
  | JUndefined =>
      Throw (ErrorObj (str "Cannot read properties of undefined (reading '"
                         ++ k ++ str "')"))
  | JNull =>
      Throw (ErrorObj (str "Cannot read properties of null (reading '"
                         ++ k ++ str "')"))
  | JObj fields => Ok (default JUndefined (fields !! k))
  | _ => Ok JUndefined
  end.

(** ** The records of [types.ts] *)

Record MusicInfo : Type := {
  music_id : jsval;
  music_title : jsval;
  music_author : jsval;
  music_duration : jsval;
  music_url : jsval
}.

(** The fields hold what the page's JSON holds: the source copies them
    without a check. *)
Record TikTokVideoInfo : Type := {
  id : jsval;
  title : jsval;
  description : jsval;
  duration : jsval;
  playCount : jsval;
  likeCount : jsval;
  commentCount : jsval;
  shareCount : jsval;
  createTime : jsval;
  videoUrl : jsval;
  coverUrl : jsval;
  dynamicCoverUrl : jsval;
  music : MusicInfo
}.

(** [watermarkFree] is [None] when the object has no such property. *)
Record DownloadUrls : Type := {
  video : jsval;
  audio : jsval;
  watermarkFree : option jsval
}.

Record ResultData : Type := {
  videoInfo : TikTokVideoInfo;
  downloadUrls : DownloadUrls
}.

Record TikTokDownloadResult : Type := {
  success : bool;
  message : jsstring;
  data : option ResultData;
  error : option jsstring
}.

Inductive Quality : Type := high | medium | low.

Record TikTokDownloaderOptions : Type := {
  opt_includeWatermark : option bool;
  opt_quality : option Quality;
  opt_timeout : option Z;
  opt_userAgent : option jsstring
}.

(** [Required<TikTokDownloaderOptions>], the [options] field of an instance. *)
Record Options : Type := {
  includeWatermark : bool;
  quality : Quality;
  timeout : Z;
  userAgent : jsstring
}.

(** ** The outside world *)

(** The libraries and the network, as the methods see them. Each field is
    the result of one call: a value, or the exception it throws. *)
Record World : Type := {
  (** [new UserAgent().toString()] when the module [user-agents] loads *)
  user_agents : option jsstring;
  (** [(await axios.get(url, {headers, timeout})).data] *)
  axios_get : jsstring -> list (jsstring * jsstring) -> Z -> result jsval;
  (** [cheerio.load(data)(selector).html()], [None] being [null] *)
  cheerio_html : jsval -> jsstring -> result (option jsstring);
  (** [JSON.parse] *)
  JSON_parse : jsstring -> result jsval;
  (** [ToString] of a value that is not a string, in a template literal: the
      text, or the TypeError of a value without a usable [toString] *)
  to_string : jsval -> result jsstring
}.

Definition default_user_agent : jsstring :=
  str "Mozilla/5.0 (Windows NT 10.0; Win64; x64) AppleWebKit/537.36 (KHTML, like Gecko) Chrome/91.0.4472.124 Safari/537.36".

(** The constructor: [options.x ?? default]. *)
Definition new_TikTokDownloader (w : World) (options : TikTokDownloaderOptions)
  : Options :=
  {| includeWatermark := default false (opt_includeWatermark options);
     quality := default high (opt_quality options);
     timeout := default 30000%Z (opt_timeout options);
     userAgent :=
       default (default default_user_agent (user_agents w))
               (opt_userAgent options) |}.

(** ** The methods of [TikTokDownloader] *)

Section Downloader.
Variable w : World.
(** [this.options]; [this.userAgent] is its [userAgent]. *)
Variable this : Options.

(** [await axios.get(url, {headers, timeout})] followed by [.data] *)
Definition http_get (url : jsstring) (headers : list (jsstring * jsstring))
  : M jsval :=
  emit (EvGet url headers (timeout this)) ;;
  lift (axios_get w url headers (timeout this)).

Definition console_error (label : jsstring) (e : exn) : M unit :=
  emit (EvConsoleError label e).

Definition page_headers : list (jsstring * jsstring) :=
  [ (str "User-Agent", userAgent this);
    (str "Accept",
     str "text/html,application/xhtml+xml,application/xml;q=0.9,image/webp,*/*;q=0.8");
    (str "Accept-Language", str "en-US,en;q=0.5");
    (str "Accept-Encoding", str "gzip, deflate");
    (str "DNT", str "1");
    (str "Connection", str "keep-alive");
    (str "Upgrade-Insecure-Requests", str "1") ].

(** [v.k] inside an asynchronous method *)
Definition prop (v : jsval) (k : jsstring) : M jsval := lift (get_prop v k).

(** The reads of [stats], [music] and [video] and the object literal of
    [fetchVideoData]; the properties are read in the order of the source. *)
Definition project (item : jsval) : M TikTokVideoInfo :=
  let* stats := prop item (str "stats") in
  let* music := prop item (str "music") in
  let* video := prop item (str "video") in
  let* v_id := prop item (str "id") in
  let* v_title := prop item (str "desc") in
  let* v_description := prop item (str "desc") in
  let* v_duration := prop video (str "duration") in
  let* v_playCount := prop stats (str "playCount") in
  let* v_diggCount := prop stats (str "diggCount") in
  let* v_commentCount := prop stats (str "commentCount") in
  let* v_shareCount := prop stats (str "shareCount") in
  let* v_createTime := prop item (str "createTime") in
  let* v_playAddr := prop video (str "playAddr") in
  let* v_cover := prop video (str "cover") in
  let* v_dynamicCover := prop video (str "dynamicCover") in
  let* m_id := prop music (str "id") in
  let* m_title := prop music (str "title") in
  let* m_authorName := prop music (str "authorName") in
  let* m_duration := prop music (str "duration") in
  let* m_playUrl := prop music (str "playUrl") in
  ret {| id := v_id;
         title := js_or v_title (JStr []);
         description := js_or v_description (JStr []);
         duration := v_duration;
         playCount := js_or v_playCount (JNum 0);
         likeCount := js_or v_diggCount (JNum 0);
         commentCount := js_or v_commentCount (JNum 0);
         shareCount := js_or v_shareCount (JNum 0);
         createTime := v_createTime;
         videoUrl := v_playAddr;
         coverUrl := v_cover;
         dynamicCoverUrl := v_dynamicCover;
         music := {| music_id := m_id;
                     music_title := m_title;
                     music_author := m_authorName;
                     music_duration := m_duration;
                     music_url := m_playUrl |} |}.

Definition rehydration_selector : jsstring :=
  str "script[id=" ++ [0x22] ++ str "__UNIVERSAL_DATA_FOR_REHYDRATION__"
  ++ [0x22] ++ str "]".

(** The [try] block of [fetchVideoData]. *)
Definition fetchVideoData_try (url : jsstring) : M TikTokVideoInfo :=
  let* response_data := http_get url page_headers in
  let* scriptTag := lift (cheerio_html w response_data rehydration_selector) in
  match scriptTag with
  | None | Some [] => throw (ErrorObj (str "Could not find video data in page"))
  | Some scriptTag =>
      let* jsonData := lift (JSON_parse w scriptTag) in
      let* scope := prop jsonData (str "__DEFAULT_SCOPE__") in
      let* videoData := prop scope (str "webapp.video-detail") in
      let* invalid :=
        (if negb (truthy videoData) then ret true
         else
           let* itemInfo := prop videoData (str "itemInfo") in
           ret (negb (truthy itemInfo))) in
      if invalid
      then throw (ErrorObj (str "Video data structure is invalid"))
      else
        let* itemInfo := prop videoData (str "itemInfo") in
        let* item := prop itemInfo (str "itemStruct") in
        project item
  end.

(** [fetchVideoData]: [None] is [null]. *)
Definition fetchVideoData (url : jsstring) : M (option TikTokVideoInfo) :=
  try_catch
    (let* videoInfo := fetchVideoData_try url in ret (Some videoInfo))
    (fun error =>
       console_error (str "Error fetching video data:") error ;;
       ret None).

(** [${videoId}]: the text of the value in the template literal of
    [getWatermarkFreeUrl], or the exception of its [ToString]. *)
Definition template_text (videoId : jsval) : result jsstring :=
  match videoId with
  | JStr s => Ok s
  | v => to_string w v
  end.

(** The template literal of [getWatermarkFreeUrl], around that text. *)
Definition mirror_api_url (idText : jsstring) : jsstring :=
  str "https://api.tiklydown.eu.org/api/download?url=https://www.tiktok.com/@user/video/"
  ++ idText.

Definition mirror_headers : list (jsstring * jsstring) :=
  [(str "User-Agent", userAgent this)].

(** [getWatermarkFreeUrl]: the result is the URL or [null]. *)
Definition getWatermarkFreeUrl (videoId : jsval) : M jsval :=
  try_catch
    (let* idText := lift (template_text videoId) in
     let apiUrl := mirror_api_url idText in
     let* response_data := http_get apiUrl mirror_headers in
     let* found :=
       (if truthy response_data then
          let* response_video := prop response_data (str "video") in
          if truthy response_video then
            let* response_video := prop response_data (str "video") in
            prop response_video (str "noWatermark")
          else ret response_video
        else ret response_data) in
     if truthy found
     then
       let* response_video := prop response_data (str "video") in
       prop response_video (str "noWatermark")
     else ret JNull)
    (fun error =>
       console_error (str "Error getting watermark-free URL:") error ;;
       ret JNull).

(** [extractDownloadUrls] *)
Definition extractDownloadUrls (videoInfo : TikTokVideoInfo) : M DownloadUrls :=
  try_catch
    (let downloadUrls :=
       {| video := videoUrl videoInfo;
          audio := music_url (music videoInfo);
          watermarkFree := None |} in
     if negb (includeWatermark this) then
       let* watermarkFreeUrl := getWatermarkFreeUrl (id videoInfo) in
       if truthy watermarkFreeUrl
       then ret {| video := video downloadUrls;
                   audio := audio downloadUrls;
                   watermarkFree := Some watermarkFreeUrl |}
       else ret downloadUrls
     else ret downloadUrls)
    (fun error =>
       ret {| video := videoUrl videoInfo;
              audio := music_url (music videoInfo);
              watermarkFree := None |}).

(** [!videoId] for a [string | null] *)
Definition no_id (videoId : option jsstring) : bool :=
  match videoId with
  | None | Some [] => true
  | Some _ => false
  end.

(** The [try] block of [downloadVideo]. *)
Definition downloadVideo_try (url : jsstring) : M TikTokDownloadResult :=
  let cleanUrl := cleanTikTokUrl url in
  if negb (isValidTikTokUrl cleanUrl) then
    ret {| success := false;
           message := str "Invalid TikTok URL provided";
           data := None;
           error := Some (str "URL format is not recognized as a valid TikTok video URL") |}
  else
    let videoId := extractVideoId cleanUrl in
    if no_id videoId then
      ret {| success := false;
             message := str "Could not extract video ID from URL";
             data := None;
             error := Some (str "Video ID extraction failed") |}
    else
      let* videoData := fetchVideoData cleanUrl in
      match videoData with
      | None =>
          ret {| success := false;
                 message := str "Failed to fetch video data";
                 data := None;
                 error := Some (str "Could not retrieve video information from TikTok") |}
      | Some videoData =>
          let* downloadUrls := extractDownloadUrls videoData in
          ret {| success := true;
                 message := str "Video information retrieved successfully";
                 data := Some {| videoInfo := videoData;
                                 downloadUrls := downloadUrls |};
                 error := None |}
      end.

(** The [catch] block of [downloadVideo]. *)
Definition downloadVideo_catch (error : exn) : M TikTokDownloadResult :=
  ret {| success := false;
         message := str "An error occurred while processing the video";
         data := None;
         error := Some match error with
                       | ErrorObj message => message
                       | NotAnError => str "Unknown error"
                       end |}.

(** The [try ... catch] of [downloadVideo] around a body. *)
Definition downloadVideo_guard (body : M TikTokDownloadResult)
  : M TikTokDownloadResult :=
  try_catch body downloadVideo_catch.

(** [downloadVideo] *)
Definition downloadVideo (url : jsstring) : M TikTokDownloadResult :=
  downloadVideo_guard (downloadVideo_try url).
End Downloader.

(** ** The result envelopes, and what a mirror answer holds *)

Definition failure (msg detail : jsstring) : TikTokDownloadResult :=
  {| success := false; message := msg; data := None; error := Some detail |}.

Definition invalid_url_result : TikTokDownloadResult :=
  failure (str "Invalid TikTok URL provided")
          (str "URL format is not recognized as a valid TikTok video URL").

Definition no_id_result : TikTokDownloadResult :=
  failure (str "Could not extract video ID from URL")
          (str "Video ID extraction failed").

Definition no_data_result : TikTokDownloadResult :=
  failure (str "Failed to fetch video data")
          (str "Could not retrieve video information from TikTok").

Definition success_result (v : TikTokVideoInfo) (urls : DownloadUrls)
  : TikTokDownloadResult :=
  {| success := true;
     message := str "Video information retrieved successfully";
     data := Some {| videoInfo := v; downloadUrls := urls |};
     error := None |}.

(** The message a caught exception carries, as [downloadVideo] reads it. *)
Definition exn_detail (e : exn) : jsstring :=
  match e with
  | ErrorObj message => message
  | NotAnError => str "Unknown error"
  end.

Definition unexpected_result (e : exn) : TikTokDownloadResult :=
  failure (str "An error occurred while processing the video") (exn_detail e).

(** The two URLs that every answer has. *)
Definition plain_urls (v : TikTokVideoInfo) : DownloadUrls :=
  {| video := videoUrl v; audio := music_url (music v); watermarkFree := None |}.

(** The field [video.noWatermark] of a mirror answer, [undefined] when the
    answer has no such field. *)
Definition noWatermark_of (response_data : jsval) : jsval :=
  match response_data with
  | JObj fields =>
      match fields !! str "video" with
      | Some (JObj video_fields) =>
          default JUndefined (video_fields !! str "noWatermark")
      | _ => JUndefined
      end
  | _ => JUndefined
  end.

(** The mirror call fails: the video id has no text, the request throws, or
    the answer has no usable [video.noWatermark]. *)
Definition mirror_fails (w : World) (this : Options) (videoId : jsval) : Prop :=
  match template_text w videoId with
  | Throw _ => True
  | Ok idText =>
      match axios_get w (mirror_api_url idText) (mirror_headers this) (timeout this) with
      | Throw _ => True
      | Ok response_data => truthy (noWatermark_of response_data) = false
      end
  end.

(** The events the mirror call leaves: the request, when the video id has a
    text, and the log of the exception, when one is thrown. *)
Definition mirror_events (w : World) (this : Options) (videoId : jsval)
  : list event :=
  match template_text w videoId with
  | Throw e => [EvConsoleError (str "Error getting watermark-free URL:") e]
  | Ok idText =>
      EvGet (mirror_api_url idText) (mirror_headers this) (timeout this) ::
      match axios_get w (mirror_api_url idText) (mirror_headers this) (timeout this) with
      | Throw e => [EvConsoleError (str "Error getting watermark-free URL:") e]
      | Ok _ => []
      end
  end.

(** The page at [url] embeds the JSON value [root]. *)
Definition page_embeds (w : World) (this : Options) (url : jsstring)
    (root : jsval) : Prop :=
  exists response_data script,
    axios_get w url (page_headers this) (timeout this) = Ok response_data /\
    cheerio_html w response_data rehydration_selector = Ok (Some script) /\
    script <> [] /\
    JSON_parse w script = Ok root.

(** The fixed path from the root of the embedded JSON to [itemStruct]. *)
Definition item_of (root : jsval) : option (gmap jsstring jsval) :=
  match root with
  | JObj r =>
      match r !! str "__DEFAULT_SCOPE__" with
      | Some (JObj scope) =>
          match scope !! str "webapp.video-detail" with
          | Some (JObj detail) =>
              match detail !! str "itemInfo" with
              | Some (JObj info) =>
                  match info !! str "itemStruct" with
                  | Some (JObj item) => Some item
                  | _ => None
                  end
              | _ => None
              end
          | _ => None
          end
      | _ => None
      end
  | _ => None
  end.

(** A counter is a number when it is there, a text is a string. *)
Definition counter_ok (o : option jsval) : Prop :=
  o = None \/ exists n, o = Some (JNum n).
Definition text_ok (o : option jsval) : Prop :=
  o = None \/ exists s, o = Some (JStr s).

(** ** A sample page and two sample worlds *)

Module Demo.
Definition url : jsstring := str "https://www.tiktok.com/@demo/video/111222333".

Definition obj (l : list (jsstring * jsval)) : jsval := JObj (list_to_map l).

Definition stats : gmap jsstring jsval :=
  list_to_map [(str "diggCount", JNum 42); (str "playCount", JNum 1000)].

Definition item : gmap jsstring jsval :=
  list_to_map
    [ (str "id", JStr (str "111222333"));
      (str "desc", JStr (str "a demo"));
      (str "createTime", JNum 1700000000);
      (str "stats", JObj stats);
      (str "music", obj [(str "id", JStr (str "7")); (str "playUrl", JStr (str "https://cdn/a.mp3"))]);
      (str "video", obj [(str "duration", JNum 15); (str "playAddr", JStr (str "https://cdn/v.mp4"))]) ].

Definition root : jsval :=
  obj [(str "__DEFAULT_SCOPE__",
        obj [(str "webapp.video-detail",
              obj [(str "itemInfo", obj [(str "itemStruct", JObj item)])])])].

Definition info : TikTokVideoInfo :=
  {| id := JStr (str "111222333");
     title := JStr (str "a demo");
     description := JStr (str "a demo");
     duration := JNum 15;
     playCount := JNum 1000;
     likeCount := JNum 42;
     commentCount := JNum 0;
     shareCount := JNum 0;
     createTime := JNum 1700000000;
     videoUrl := JStr (str "https://cdn/v.mp4");
     coverUrl := JUndefined;
     dynamicCoverUrl := JUndefined;
     music := {| music_id := JStr (str "7");
                 music_title := JUndefined;
                 music_author := JUndefined;
                 music_duration := JUndefined;
                 music_url := JStr (str "https://cdn/a.mp3") |} |}.

(** The JSON text of [root] and the page around it. *)
Definition q (s : String.string) : jsstring := [0x22] ++ str s ++ [0x22].

Definition script : jsstring :=
  str "{" ++ q "__DEFAULT_SCOPE__" ++ str ":{" ++ q "webapp.video-detail"
  ++ str ":{" ++ q "itemInfo" ++ str ":{" ++ q "itemStruct" ++ str ":{"
  ++ q "id" ++ str ":" ++ q "111222333" ++ str ","
  ++ q "desc" ++ str ":" ++ q "a demo" ++ str ","
  ++ q "createTime" ++ str ":1700000000,"
  ++ q "stats" ++ str ":{" ++ q "diggCount" ++ str ":42,"
  ++ q "playCount" ++ str ":1000},"
  ++ q "music" ++ str ":{" ++ q "id" ++ str ":" ++ q "7" ++ str ","
  ++ q "playUrl" ++ str ":" ++ q "https://cdn/a.mp3" ++ str "},"
  ++ q "video" ++ str ":{" ++ q "duration" ++ str ":15,"
  ++ q "playAddr" ++ str ":" ++ q "https://cdn/v.mp4" ++ str "}}}}}}".

Definition html : jsstring :=
  str "<html><body><script id=" ++ q "__UNIVERSAL_DATA_FOR_REHYDRATION__"
  ++ str ">" ++ script ++ str "</script></body></html>".

Definition same (a b : jsstring) : bool :=
  match strip_prefix a b with
  | Some [] => true
  | _ => false
  end.

(** [ToString]: an array is its elements joined by commas, [null] and
    [undefined] among them giving nothing; an object parsed from JSON is
    [[object Object]], unless it has a property [toString] of its own, which
    is no function, so that the conversion throws. Numbers are integers
    below 10^21, written in decimal. *)
Fixpoint to_text (v : jsval) : result jsstring :=
  match v with
  | JUndefined => Ok (str "undefined")
  | JNull => Ok (str "null")
  | JBool true => Ok (str "true")
  | JBool false => Ok (str "false")
  | JNum n => Ok (str (NilZero.string_of_int (Z.to_int n)))
  | JStr s => Ok s
  | JArr items =>
      (fix join (l : list jsval) : result jsstring :=
         match l with
         | [] => Ok []
         | x :: rest =>
             match match x with
                   | JUndefined | JNull => Ok []
                   | _ => to_text x
                   end with
             | Throw e => Throw e
             | Ok first =>
                 match rest with
                 | [] => Ok first
                 | _ :: _ =>
                     match join rest with
                     | Throw e => Throw e
                     | Ok others => Ok (first ++ str "," ++ others)
                     end
                 end
             end
         end) items
  | JObj fields =>
      match fields !! str "toString" with
      | Some _ => Throw (ErrorObj (str "Cannot convert object to primitive value"))
      | None => Ok (str "[object Object]")
      end
  end.

(** The page answers; the mirror answers what [mirror] says. *)
Definition world (mirror : result jsval) : World :=
  {| user_agents := None;
     axios_get := fun u _ _ =>
       if includes (str "api.tiklydown.eu.org") u then mirror
       else Ok (JStr html);
     cheerio_html := fun response_data _ =>
       match response_data with
       | JStr page => Ok (if same page html then Some script else None)
       | _ => Ok None
       end;
     JSON_parse := fun text =>
       if same text script then Ok root
       else Throw (ErrorObj (str "Unexpected token"));
     to_string := to_text |}.

(** The page answers and the mirror sends an error page. *)
Definition bad_gateway : World := world (Ok (JStr (str "<html>502</html>"))).

(** The page answers and the mirror is unreachable. *)
Definition mirror_down : World := world (Throw (ErrorObj (str "Network Error"))).

(** Nothing answers. *)
Definition offline : World :=
  {| user_agents := None;
     axios_get := fun _ _ _ => Throw (ErrorObj (str "timeout of 30000ms exceeded"));
     cheerio_html := fun _ _ => Ok None;
     JSON_parse := fun _ => Throw (ErrorObj (str "Unexpected end of JSON input"));
     to_string := to_text |}.

(** A mirror answer with a watermark-free URL. *)
Definition mirror_answer : jsval :=
  obj [(str "video", obj [(str "noWatermark", JStr (str "https://mirror/clean.mp4"))])].

Definition options (include : bool) : Options :=
  new_TikTokDownloader offline
    {| opt_includeWatermark := Some include;
       opt_quality := None;
       opt_timeout := None;
       opt_userAgent := None |}.
End Demo.

(** ** What the patterns mean *)

(** [holds c s]: every character of [s] is in the class [c]. *)
Definition holds (c : char -> bool) (s : jsstring) : Prop :=
  Forall (fun a => c a = true) s.

(** The language of a regex: the strings it can consume. *)
Inductive matches : regex -> jsstring -> Prop :=
| matches_lit l : matches (Lit l) l
| matches_opt_skip r : matches (Opt r) []
| matches_opt_take r s : matches r s -> matches (Opt r) s
| matches_plus c s : s <> [] -> holds c s -> matches (Plus c) s
| matches_seq r1 r2 s1 s2 :
    matches r1 s1 -> matches r2 s2 -> matches (Seq r1 r2) (s1 ++ s2)
| matches_group r s : matches r s -> matches (Group r) s.

(** [s] has a substring that [r] can consume. *)
Definition occurs (r : regex) (s : jsstring) : Prop :=
  exists pre mid post, s = pre ++ mid ++ post /\ matches r mid.

(** [mid] is a match of [r] in [s] that starts at the leftmost position at
    which [r] matches at all. *)
Definition leftmost (r : regex) (s pre mid post : jsstring) : Prop :=
  s = pre ++ mid ++ post /\ matches r mid /\
  forall pre' mid' post',
    s = pre' ++ mid' ++ post' -> matches r mid' ->
    (length pre <= length pre')%nat.

(** ** The URL shapes, in words *)

(** [http://] or [https://] *)
Definition is_scheme (sch : jsstring) : Prop :=
  sch = str "http://" \/ sch = str "https://".

(** [www.] or nothing *)
Definition is_www (www : jsstring) : Prop := www = [] \/ www = str "www.".

(** The canonical form after the scheme: an optional [www.], the host, a
    handle without [/], and the digits of the video. *)
Definition canonical_form (b : jsstring) : Prop :=
  exists www handle digits,
    b = www ++ str "tiktok.com/@" ++ handle ++ str "/video/" ++ digits /\
    is_www www /\
    handle <> [] /\ holds not_slash handle /\
    digits <> [] /\ holds is_digit digits.

(** A short link after the scheme: the host and a code of letters and
    digits. *)
Definition short_link_form (host b : jsstring) : Prop :=
  exists code,
    b = host ++ str "/" ++ code /\ code <> [] /\ holds is_alnum code.

(** The mobile form after the scheme. *)
Definition mobile_form (b : jsstring) : Prop :=
  exists digits,
    b = str "m.tiktok.com/v/" ++ digits /\ digits <> [] /\ holds is_digit digits.

(** One of the four forms at the start of [u], behind a scheme that
    [scheme_ok] admits. *)
Definition url_shape (scheme_ok : jsstring -> Prop) (u : jsstring) : Prop :=
  exists sch b rest,
    u = sch ++ b ++ rest /\ scheme_ok sch /\
    (canonical_form b \/ short_link_form (str "vm.tiktok.com") b \/
     short_link_form (str "vt.tiktok.com") b \/ mobile_form b).

(** The shapes as the specification words them: the scheme may be left out. *)
Definition documented_shape (u : jsstring) : Prop :=
  url_shape (fun sch => sch = [] \/ is_scheme sch) u.

(** The shapes with the scheme required. *)
Definition accepted_shape (u : jsstring) : Prop := url_shape is_scheme u.

(** The canonical pattern of [cleanTikTokUrl]: scheme and [www.] both
    optional. *)
Definition canonical_link (m : jsstring) : Prop :=
  exists sch b, m = sch ++ b /\ (sch = [] \/ is_scheme sch) /\ canonical_form b.

(** ** Where an identifier sits, in words *)

(** [u] has the prefix [p] followed by at least one digit somewhere. *)
Definition has_id (p u : jsstring) : Prop :=
  exists pre d post,
    u = pre ++ p ++ d ++ post /\ d <> [] /\ holds is_digit d.

(** [d] is the whole run of digits behind the first place in [u] where [p]
    is followed by a digit. *)
Definition first_id (p u d : jsstring) : Prop :=
  exists pre post,
    u = pre ++ p ++ d ++ post /\ d <> [] /\ holds is_digit d /\
    (forall c post', post = c :: post' -> is_digit c = false) /\
    (forall pre' d' post',
       u = pre' ++ p ++ d' ++ post' -> d' <> [] -> holds is_digit d' ->
       (length pre <= length pre')%nat).

(** ** Trimming and containment, in words *)

(** [s] has [sub] as a substring. *)
Definition contains (sub s : jsstring) : Prop :=
  exists pre post, s = pre ++ sub ++ post.

(** [t] is [u] without the white space around it. *)
Definition trimmed (u t : jsstring) : Prop :=
  (exists l r, u = l ++ t ++ r /\ holds is_white l /\ holds is_white r) /\
  (forall c t', t = c :: t' -> is_white c = false) /\
  (forall t' c, t = t' ++ [c] -> is_white c = false).

(** ** [index.ts] *)

(** The options object [{}]. *)
Definition no_options : TikTokDownloaderOptions :=
  {| opt_includeWatermark := None;
     opt_quality := None;
     opt_timeout := None;
     opt_userAgent := None |}.

(** [createTikTokDownloader]: the constructor takes [{}] for a missing
    argument. *)
Definition createTikTokDownloader (w : World)
    (options : option TikTokDownloaderOptions) : Options :=
  new_TikTokDownloader w (default no_options options).

(** ** Requests and mirror answers, in words *)

(** The outbound requests among events. *)
Definition requests (evs : list event) : list event :=
  List.filter (fun ev => match ev with EvGet _ _ _ => true | _ => false end) evs.

Definition page_request (this : Options) (url : jsstring) : event :=
  EvGet url (page_headers this) (timeout this).

Definition mirror_request (this : Options) (idText : jsstring) : event :=
  EvGet (mirror_api_url idText) (mirror_headers this) (timeout this).

(** What the mirror call gives: a truthy [video.noWatermark], or [null]. *)
Definition mirror_value (w : World) (this : Options) (videoId : jsval) : jsval :=
  match template_text w videoId with
  | Throw _ => JNull
  | Ok idText =>
      match axios_get w (mirror_api_url idText) (mirror_headers this) (timeout this) with
      | Ok response_data =>
          if truthy (noWatermark_of response_data)
          then noWatermark_of response_data
          else JNull
      | Throw _ => JNull
      end
  end.

(** The value of [jsonData.__DEFAULT_SCOPE__['webapp.video-detail']] for a
    root that is an object with an object under [__DEFAULT_SCOPE__]. *)
Definition detail_of (root : jsval) : option jsval :=
  match root with
  | JObj r =>
      match r !! str "__DEFAULT_SCOPE__" with
      | Some (JObj scope) =>
          Some (default JUndefined (scope !! str "webapp.video-detail"))
      | _ => None
      end
  | _ => None
  end.

(** ** More sample pages *)

Module Fixture.
(** A world whose page has the script text [script_text] (or no such
    script), which [JSON.parse] reads as [parsed]; the mirror is
    unreachable. *)
Definition serve (script_text : option jsstring) (parsed : result jsval) : World :=
  {| user_agents := Some (str "Mozilla/5.0 (X11; Linux x86_64)");
     axios_get := fun u _ _ =>
       if includes (str "api.tiklydown.eu.org") u
       then Throw (ErrorObj (str "Network Error"))
       else Ok (JStr (str "<html></html>"));
     cheerio_html := fun _ _ => Ok script_text;
     JSON_parse := fun text =>
       match script_text with
       | Some known =>
           if Demo.same text known then parsed
           else Throw (ErrorObj (str "Unexpected token"))
       | None => Throw (ErrorObj (str "Unexpected token"))
       end;
     to_string := Demo.to_text |}.

(** The JSON text around the text of an [itemStruct]. *)
Definition wrap_text (item_text : jsstring) : jsstring :=
  str "{" ++ Demo.q "__DEFAULT_SCOPE__" ++ str ":{" ++ Demo.q "webapp.video-detail"
  ++ str ":{" ++ Demo.q "itemInfo" ++ str ":{" ++ Demo.q "itemStruct" ++ str ":"
  ++ item_text ++ str "}}}}".

Definition wrap (item : jsval) : jsval :=
  Demo.obj [(str "__DEFAULT_SCOPE__",
             Demo.obj [(str "webapp.video-detail",
                        Demo.obj [(str "itemInfo",
                                   Demo.obj [(str "itemStruct", item)])])])].

(** A root without [webapp.video-detail]. *)
Definition other_route : jsval :=
  Demo.obj [(str "__DEFAULT_SCOPE__",
             Demo.obj [(str "webapp.user-detail", Demo.obj [])])].

Definition other_route_text : jsstring :=
  str "{" ++ Demo.q "__DEFAULT_SCOPE__" ++ str ":{" ++ Demo.q "webapp.user-detail"
  ++ str ":{}}}".

(** An item without [stats]. *)
Definition bare_item : gmap jsstring jsval :=
  list_to_map [ (str "id", JStr (str "5"));
                (str "music", Demo.obj []);
                (str "video", Demo.obj []) ].

Definition bare_text : jsstring :=
  wrap_text (str "{" ++ Demo.q "id" ++ str ":" ++ Demo.q "5" ++ str ","
             ++ Demo.q "music" ++ str ":{}," ++ Demo.q "video" ++ str ":{}}").

(** An item with odd counters and no [playAddr]. *)
Definition odd_stats : gmap jsstring jsval :=
  list_to_map [ (str "playCount", JStr (str "12"));
                (str "diggCount", JNull);
                (str "commentCount", JBool false) ].

Definition odd_item : gmap jsstring jsval :=
  list_to_map [ (str "id", JNum 5);
                (str "desc", JNum 0);
                (str "stats", JObj odd_stats);
                (str "music", Demo.obj []);
                (str "video", Demo.obj [(str "cover", JStr (str "https://cdn/c.jpg"))]) ].

Definition odd_text : jsstring :=
  wrap_text (str "{" ++ Demo.q "id" ++ str ":5," ++ Demo.q "desc" ++ str ":0,"
             ++ Demo.q "stats" ++ str ":{" ++ Demo.q "playCount" ++ str ":"
             ++ Demo.q "12" ++ str "," ++ Demo.q "diggCount" ++ str ":null,"
             ++ Demo.q "commentCount" ++ str ":false},"
             ++ Demo.q "music" ++ str ":{}," ++ Demo.q "video" ++ str ":{"
             ++ Demo.q "cover" ++ str ":" ++ Demo.q "https://cdn/c.jpg" ++ str "}}").

(** An item whose [id] is an object with a property [toString], so that
    its [ToString] throws. *)
Definition sealed_id : jsval := Demo.obj [(str "toString", JNum 1)].

Definition sealed_item : gmap jsstring jsval :=
  list_to_map [ (str "id", sealed_id);
                (str "stats", Demo.obj []);
                (str "music", Demo.obj []);
                (str "video", Demo.obj [(str "playAddr", JStr (str "https://cdn/v.mp4"))]) ].

Definition sealed_text : jsstring :=
  wrap_text (str "{" ++ Demo.q "id" ++ str ":{" ++ Demo.q "toString" ++ str ":1},"
             ++ Demo.q "stats" ++ str ":{}," ++ Demo.q "music" ++ str ":{},"
             ++ Demo.q "video" ++ str ":{" ++ Demo.q "playAddr" ++ str ":"
             ++ Demo.q "https://cdn/v.mp4" ++ str "}}").

Definition sealed_info : TikTokVideoInfo :=
  {| id := sealed_id;
     title := JStr [];
     description := JStr [];
     duration := JUndefined;
     playCount := JNum 0;
     likeCount := JNum 0;
     commentCount := JNum 0;
     shareCount := JNum 0;
     createTime := JUndefined;
     videoUrl := JStr (str "https://cdn/v.mp4");
     coverUrl := JUndefined;
     dynamicCoverUrl := JUndefined;
     music := {| music_id := JUndefined;
                 music_title := JUndefined;
                 music_author := JUndefined;
                 music_duration := JUndefined;
                 music_url := JUndefined |} |}.

(** The pages of the items above, and a page of another route. *)
Definition sealed_page : World := serve (Some sealed_text) (Ok (wrap (JObj sealed_item))).
Definition bare_page : World := serve (Some bare_text) (Ok (wrap (JObj bare_item))).
Definition odd_page : World := serve (Some odd_text) (Ok (wrap (JObj odd_item))).
Definition other_page : World := serve (Some other_route_text) (Ok other_route).
Definition no_script_page : World := serve None (Throw NotAnError).

Definition options : Options := createTikTokDownloader no_script_page None.
End Fixture.

(** * Properties *)

(** ** Strings *)

Lemma strip_prefix_app p t : strip_prefix p (p ++ t) = Some t.
Proof.
  induction p as [|a p IH]; simpl; [by destruct t|].
  by rewrite N.eqb_refl.
Qed.

Lemma strip_prefix_Some p s t : strip_prefix p s = Some t -> s = p ++ t.
Proof.
  revert s; induction p as [|a p IH]; intros [|b s] H; simpl in *;
    try congruence.
  destruct (N.eqb_spec a b) as [->|]; [|done].
  by rewrite (IH _ H).
Qed.

Lemma strip_prefix_None p s : strip_prefix p s = None -> forall t, s <> p ++ t.
Proof.
  intros H t ->. by rewrite strip_prefix_app in H.
Qed.

Lemma includes_spec sub s :
  includes sub s = true <-> exists pre post, s = pre ++ sub ++ post.
Proof.
  induction s as [|a s IH]; simpl.
  - destruct (strip_prefix sub []) eqn:E.
    + split; [intros _|done]. apply strip_prefix_Some in E. by exists [], l.
    + split; [done|]. intros (pre & post & H).
      destruct pre; [|done]. simpl in H.
      by apply strip_prefix_None with (t := post) in E.
  - destruct (strip_prefix sub (a :: s)) eqn:E.
    + split; [intros _|done]. apply strip_prefix_Some in E. by exists [], l.
    + rewrite IH. split.
      * intros (pre & post & ->). by exists (a :: pre), post.
      * intros (pre & post & H). destruct pre as [|b pre].
        -- by apply strip_prefix_None with (t := post) in E.
        -- injection H as -> ->. by exists pre, post.
Qed.

Lemma take_drop_while p s : take_while p s ++ drop_while p s = s.
Proof. induction s as [|a s IH]; simpl; [done|]. destruct (p a); simpl; congruence. Qed.

Lemma take_while_holds p s : holds p (take_while p s).
Proof.
  induction s as [|a s IH]; simpl; [constructor|].
  destruct (p a) eqn:E; by constructor.
Qed.

Lemma drop_while_head p s a t : drop_while p s = a :: t -> p a = false.
Proof.
  induction s as [|b s IH]; simpl; [done|].
  destruct (p b) eqn:E; [done|]. by intros [= -> ->].
Qed.

Lemma drop_while_app_stop p s a t :
  p a = false -> drop_while p (s ++ a :: t) = drop_while p s ++ a :: t.
Proof.
  intros Ha. induction s as [|b s IH]; simpl; [by rewrite Ha|].
  by destruct (p b).
Qed.

Lemma take_length_app (s1 rest : jsstring) :
  take (length (s1 ++ rest) - length rest) (s1 ++ rest) = s1.
Proof.
  rewrite length_app.
  replace (length s1 + length rest - length rest)%nat with (length s1) by lia.
  by rewrite take_app_length.
Qed.

(** ** The matcher against the language *)

Lemma star_sound c s k x :
  star c s k = Some x ->
  exists s1 s2, s = s1 ++ s2 /\ holds c s1 /\ k s2 = Some x.
Proof.
  induction s as [|a s IH]; simpl.
  - intros H. by exists [], []; repeat split; [constructor|].
  - destruct (c a) eqn:Ea.
    + destruct (star c s k) eqn:Es.
      * intros [= ->]. destruct (IH eq_refl) as (s1 & s2 & -> & H1 & H2).
        exists (a :: s1), s2. repeat split; [by constructor|done].
      * intros H. exists [], (a :: s). repeat split; [constructor|done].
    + intros H. exists [], (a :: s). repeat split; [constructor|done].
Qed.

Lemma star_here c s k : is_Some (k s) -> is_Some (star c s k).
Proof.
  intros H. destruct s as [|a s]; simpl; [done|].
  destruct (c a); [|done]. by destruct (star c s k).
Qed.

Lemma star_complete c s1 s2 k :
  holds c s1 -> is_Some (k s2) -> is_Some (star c (s1 ++ s2) k).
Proof.
  intros H1 H2. induction H1 as [|a s1 Ha _ IH]; simpl.
  - by apply star_here.
  - rewrite Ha. by destruct (star c (s1 ++ s2) k).
Qed.

Lemma star_total c s k :
  (forall t, is_Some (k t)) -> star c s k = k (drop_while c s).
Proof.
  intros Hk. induction s as [|a s IH]; simpl; [done|].
  destruct (c a); [|done]. rewrite IH.
  by destruct (Hk (drop_while c s)) as [x ->].
Qed.

Lemma rmatch_sound r : forall s caps k x,
  rmatch r s caps k = Some x ->
  exists s1 s2 caps', s = s1 ++ s2 /\ matches r s1 /\ k s2 caps' = Some x.
Proof.
  induction r as [l|r IH|c|r1 IH1 r2 IH2|r IH]; intros s caps k x; simpl.
  - destruct (strip_prefix l s) eqn:E; [|done]. intros H.
    apply strip_prefix_Some in E. subst s. exists l, l0, caps.
    repeat split; [constructor|done].
  - destruct (rmatch r s caps k) eqn:E.
    + intros [= ->]. destruct (IH _ _ _ _ E) as (s1 & s2 & caps' & -> & H1 & H2).
      exists s1, s2, caps'. repeat split; [by constructor|done].
    + intros H. exists [], s, caps. repeat split; [constructor|done].
  - destruct s as [|a s]; [done|]. destruct (c a) eqn:Ea; [|done].
    intros H. apply star_sound in H as (s1 & s2 & -> & H1 & H2).
    exists (a :: s1), s2, caps. repeat split; [|done].
    constructor; [done|by constructor].
  - intros H. apply IH1 in H as (s1 & s2 & caps1 & -> & H1 & H).
    apply IH2 in H as (s1' & s2' & caps2 & -> & H2 & H).
    exists (s1 ++ s1'), s2', caps2. rewrite <- app_assoc.
    repeat split; [by constructor|done].
  - intros H. apply IH in H as (s1 & s2 & caps1 & -> & H1 & H).
    eexists s1, s2, _. repeat split; [by constructor|exact H].
Qed.

Lemma rmatch_complete r s1 :
  matches r s1 ->
  forall s2 caps k,
    (forall caps', is_Some (k s2 caps')) ->
    is_Some (rmatch r (s1 ++ s2) caps k).
Proof.
  induction 1 as [l|r|r s _ IH|c s Hne Hc|r1 r2 s1 s1' _ IH1 _ IH2|r s _ IH];
    intros s2 caps k Hk; simpl.
  - by rewrite strip_prefix_app.
  - destruct (rmatch r s2 caps k); [done|apply Hk].
  - by destruct (IH s2 caps k Hk) as [x ->].
  - destruct Hc as [|a s Ha Hc]; [done|]. simpl. rewrite Ha.
    by apply star_complete.
  - rewrite <- app_assoc. apply IH1. intros caps'. by apply IH2.
  - apply IH. intros caps'. apply Hk.
Qed.

Lemma exec_here_Some r s rest caps :
  exec_here r s = Some (rest, caps) ->
  exists s1, s = s1 ++ rest /\ matches r s1.
Proof.
  intros H. apply rmatch_sound in H as (s1 & s2 & caps' & -> & H1 & [= -> ->]).
  by exists s1.
Qed.

Lemma exec_here_complete r s1 s2 :
  matches r s1 -> is_Some (exec_here r (s1 ++ s2)).
Proof. intros H. by apply rmatch_complete. Qed.

Lemma exec_here_None r s :
  exec_here r s = None -> forall s1 s2, s = s1 ++ s2 -> ~ matches r s1.
Proof.
  intros H s1 s2 -> Hm.
  destruct (exec_here_complete r s1 s2 Hm) as [x Hx]. congruence.
Qed.

Lemma exec_here_leftmost r s o :
  exec_here r s = Some o -> leftmost r s [] (m0 (matched s o)) (fst o).
Proof.
  destruct o as [rest caps]. intros E.
  apply exec_here_Some in E as (s1 & -> & Hm).
  unfold matched; simpl. rewrite take_length_app.
  repeat split; [done|]. intros; simpl; lia.
Qed.

Lemma search_Some r s m :
  search r s = Some m ->
  exists pre s' o,
    s = pre ++ s' /\ exec_here r s' = Some o /\ m = matched s' o /\
    leftmost r s pre (m0 m) (fst o).
Proof.
  induction s as [|a s IH]; simpl.
  - destruct (exec_here r []) as [o|] eqn:E; [|done].
    intros [= <-]. exists [], [], o.
    split; [done|]. split; [done|]. split; [done|]. by apply exec_here_leftmost.
  - destruct (exec_here r (a :: s)) as [o|] eqn:E.
    + intros [= <-]. exists [], (a :: s), o.
      split; [done|]. split; [done|]. split; [done|].
      by apply exec_here_leftmost.
    + intros H.
      destruct (IH H) as (pre & s' & o & -> & E' & -> & Heq & Hm & Hleft).
      exists (a :: pre), s', o.
      split; [done|]. split; [done|]. split; [done|]. split; [|split; [done|]].
      * simpl. by f_equal.
      * intros [|b pre'] mid' post' Heq' Hm'.
        -- destruct (exec_here_None _ _ E mid' post' Heq' Hm').
        -- injection Heq' as -> Heq'. simpl. apply le_n_S. by eapply Hleft.
Qed.

Lemma search_None r s : search r s = None <-> ~ occurs r s.
Proof.
  induction s as [|a s IH]; simpl.
  - destruct (exec_here r []) as [o|] eqn:E.
    + split; [done|]. intros H. exfalso. apply H.
      destruct o as [rest caps]. apply exec_here_Some in E as (s1 & E & Hm).
      by exists [], s1, rest.
    + split; [|done]. intros _ (pre & mid & post & Heq & Hm).
      destruct pre; [|done]. destruct (exec_here_None _ _ E mid post Heq Hm).
  - destruct (exec_here r (a :: s)) as [o|] eqn:E.
    + split; [done|]. intros H. exfalso. apply H.
      destruct o as [rest caps]. apply exec_here_Some in E as (s1 & E & Hm).
      by exists [], s1, rest.
    + rewrite IH. split.
      * intros H (pre & mid & post & Heq & Hm). destruct pre as [|b pre].
        -- destruct (exec_here_None _ _ E mid post Heq Hm).
        -- injection Heq as -> ->. apply H. by exists pre, mid, post.
      * intros H (pre & mid & post & -> & Hm). apply H.
        by exists (a :: pre), mid, post.
Qed.

Lemma re_test_anchored r s :
  re_test (Pattern true r) s = true <->
  exists s1 s2, s = s1 ++ s2 /\ matches r s1.
Proof.
  unfold re_test, re_exec; simpl.
  destruct (exec_here r s) as [[rest caps]|] eqn:E.
  - split; [intros _|done]. apply exec_here_Some in E as (s1 & -> & Hm).
    by exists s1, rest.
  - split; [done|]. intros (s1 & s2 & Heq & Hm).
    destruct (exec_here_None _ _ E s1 s2 Heq Hm).
Qed.

(** ** Inversion of the language, constructor by constructor *)

Lemma matches_lit_iff l s : matches (Lit l) s <-> s = l.
Proof. split; [by inversion 1|intros ->; constructor]. Qed.

Lemma matches_opt_iff r s : matches (Opt r) s <-> s = [] \/ matches r s.
Proof.
  split; [inversion 1; auto|intros [->|H]; by constructor].
Qed.

Lemma matches_plus_iff c s : matches (Plus c) s <-> s <> [] /\ holds c s.
Proof. split; [by inversion 1|intros [? ?]; by constructor]. Qed.

Lemma matches_seq_iff r1 r2 s :
  matches (Seq r1 r2) s <->
  exists s1 s2, s = s1 ++ s2 /\ matches r1 s1 /\ matches r2 s2.
Proof.
  split; [inversion 1; subst; eauto|intros (? & ? & -> & ? & ?); by constructor].
Qed.

Lemma matches_group_iff r s : matches (Group r) s <-> matches r s.
Proof. split; [by inversion 1|by constructor]. Qed.

(** Break every hypothesis on the language of a compound regex. *)
Ltac invert_matches :=
  repeat match goal with
    | H : matches (Seq _ _) _ |- _ =>
        apply matches_seq_iff in H as (? & ? & -> & ? & ?)
    | H : matches (Lit _) _ |- _ => apply matches_lit_iff in H as ->
    | H : matches (Opt _) _ |- _ => apply matches_opt_iff in H as [->|?]
    | H : matches (Plus _) _ |- _ => apply matches_plus_iff in H as [? ?]
    | H : matches (Group _) _ |- _ => apply matches_group_iff in H
    end.

Lemma matches_scheme s : matches Re.scheme s <-> is_scheme s.
Proof.
  unfold Re.scheme, is_scheme. split.
  - intros H. invert_matches; [by left|by right].
  - intros [->| ->].
    + apply (matches_seq _ _ (str "http" ++ []) (str "://"));
        [apply matches_seq|]; constructor.
    + apply (matches_seq _ _ (str "http" ++ str "s") (str "://"));
        [apply matches_seq|]; repeat constructor.
Qed.

Lemma matches_www s : matches Re.www s <-> is_www s.
Proof.
  unfold Re.www, is_www. rewrite matches_opt_iff, matches_lit_iff. tauto.
Qed.

Lemma matches_handle_video s :
  matches Re.handle_video s <->
  exists handle digits,
    s = str "tiktok.com/@" ++ handle ++ str "/video/" ++ digits /\
    handle <> [] /\ holds not_slash handle /\
    digits <> [] /\ holds is_digit digits.
Proof.
  unfold Re.handle_video. split.
  - intros H.
    apply matches_seq_iff in H as (s1 & digits & -> & H1 & Hd).
    apply matches_seq_iff in H1 as (s2 & v & -> & H2 & Hv).
    apply matches_seq_iff in H2 as (t & handle & -> & Ht & Hh).
    apply matches_lit_iff in Ht as ->. apply matches_lit_iff in Hv as ->.
    apply matches_plus_iff in Hh as [? ?]. apply matches_plus_iff in Hd as [? ?].
    exists handle, digits. split; [by rewrite <- !app_assoc|done].
  - intros (handle & digits & -> & ? & ? & ? & ?).
    rewrite !app_assoc. repeat apply matches_seq; by constructor.
Qed.

Lemma matches_valid_canonical s :
  matches (body Re.valid_canonical) s <->
  exists sch b, s = sch ++ b /\ is_scheme sch /\ canonical_form b.
Proof.
  simpl. rewrite matches_seq_iff. split.
  - intros (s1 & s2 & -> & H1 & H2).
    apply matches_seq_iff in H1 as (sch & www & -> & Hs & Hw).
    apply matches_scheme in Hs. apply matches_www in Hw.
    apply matches_handle_video in H2 as (handle & digits & -> & ?).
    exists sch, (www ++ str "tiktok.com/@" ++ handle ++ str "/video/" ++ digits).
    split; [by rewrite <- app_assoc|]. split; [done|].
    by exists www, handle, digits.
  - intros (sch & b & -> & Hs & www & handle & digits & -> & Hw & ?).
    exists (sch ++ www), (str "tiktok.com/@" ++ handle ++ str "/video/" ++ digits).
    split; [by rewrite <- app_assoc|]. split.
    + apply matches_seq; [by apply matches_scheme|by apply matches_www].
    + apply matches_handle_video. by exists handle, digits.
Qed.

Lemma matches_clean_canonical s :
  matches (body Re.clean_canonical) s <-> canonical_link s.
Proof.
  simpl. rewrite matches_seq_iff. unfold canonical_link. split.
  - intros (s1 & s2 & -> & H1 & H2).
    apply matches_seq_iff in H1 as (sch & www & -> & Hs & Hw).
    apply matches_opt_iff in Hs. rewrite matches_scheme in Hs.
    apply matches_www in Hw.
    apply matches_handle_video in H2 as (handle & digits & -> & ?).
    exists sch, (www ++ str "tiktok.com/@" ++ handle ++ str "/video/" ++ digits).
    split; [by rewrite <- app_assoc|]. split; [done|].
    by exists www, handle, digits.
  - intros (sch & b & -> & Hs & www & handle & digits & -> & Hw & ?).
    exists (sch ++ www), (str "tiktok.com/@" ++ handle ++ str "/video/" ++ digits).
    split; [by rewrite <- app_assoc|]. split.
    + apply matches_seq; [|by apply matches_www].
      apply matches_opt_iff. by rewrite matches_scheme.
    + apply matches_handle_video. by exists handle, digits.
Qed.

Lemma matches_scheme_host_plus host c s :
  matches (Seq (Seq Re.scheme (Lit host)) (Plus c)) s <->
  exists sch tail,
    s = sch ++ host ++ tail /\ is_scheme sch /\ tail <> [] /\ holds c tail.
Proof.
  rewrite matches_seq_iff. split.
  - intros (s1 & tail & -> & H1 & H2).
    apply matches_seq_iff in H1 as (sch & h & -> & Hs & Hh).
    apply matches_scheme in Hs. apply matches_lit_iff in Hh as ->.
    apply matches_plus_iff in H2 as [? ?].
    exists sch, tail. by rewrite <- app_assoc.
  - intros (sch & tail & -> & Hs & ? & ?).
    exists (sch ++ host), tail. split; [by rewrite <- app_assoc|]. split.
    + apply matches_seq; [by apply matches_scheme|constructor].
    + by constructor.
Qed.

(** ** [isValidTikTokUrl] *)

Lemma re_test_short_link host u :
  re_test (Pattern true (Seq (Seq Re.scheme (Lit (host ++ str "/"))) (Plus is_alnum))) u
  = true <->
  exists sch b rest, u = sch ++ b ++ rest /\ is_scheme sch /\ short_link_form host b.
Proof.
  rewrite re_test_anchored. split.
  - intros (s1 & rest & -> & H).
    apply matches_scheme_host_plus in H as (sch & code & -> & ? & ? & ?).
    exists sch, (host ++ str "/" ++ code), rest.
    split; [by rewrite <- !app_assoc|]. split; [done|]. by exists code.
  - intros (sch & b & rest & -> & ? & code & -> & ? & ?).
    exists (sch ++ (host ++ str "/") ++ code), rest.
    split; [by rewrite <- !app_assoc|].
    apply matches_scheme_host_plus. by exists sch, code.
Qed.

Lemma re_test_mobile u :
  re_test Re.valid_mobile u = true <->
  exists sch b rest, u = sch ++ b ++ rest /\ is_scheme sch /\ mobile_form b.
Proof.
  unfold Re.valid_mobile. rewrite re_test_anchored. split.
  - intros (s1 & rest & -> & H).
    apply matches_scheme_host_plus in H as (sch & digits & -> & ? & ? & ?).
    exists sch, (str "m.tiktok.com/v/" ++ digits), rest.
    split; [by rewrite <- !app_assoc|]. split; [done|]. by exists digits.
  - intros (sch & b & rest & -> & ? & digits & -> & ? & ?).
    exists (sch ++ str "m.tiktok.com/v/" ++ digits), rest.
    split; [by rewrite <- !app_assoc|].
    apply matches_scheme_host_plus. by exists sch, digits.
Qed.

Lemma re_test_canonical u :
  re_test Re.valid_canonical u = true <->
  exists sch b rest, u = sch ++ b ++ rest /\ is_scheme sch /\ canonical_form b.
Proof.
  unfold Re.valid_canonical at 1. rewrite re_test_anchored. split.
  - intros (s1 & rest & -> & H).
    apply matches_valid_canonical in H as (sch & b & -> & ? & ?).
    exists sch, b, rest. by rewrite <- app_assoc.
  - intros (sch & b & rest & -> & ? & ?).
    exists (sch ++ b), rest. split; [by rewrite <- app_assoc|].
    apply matches_valid_canonical. by exists sch, b.
Qed.

Lemma isValidTikTokUrl_short_link host u :
  host = str "vm.tiktok.com" \/ host = str "vt.tiktok.com" ->
  (exists sch b rest,
     u = sch ++ b ++ rest /\ is_scheme sch /\ short_link_form host b) ->
  isValidTikTokUrl u = true.
Proof.
  intros Hhost H. unfold isValidTikTokUrl. cbn [existsb].
  change Re.valid_vm with
    (Pattern true (Seq (Seq Re.scheme (Lit (str "vm.tiktok.com" ++ str "/")))
                       (Plus is_alnum))).
  change Re.valid_vt with
    (Pattern true (Seq (Seq Re.scheme (Lit (str "vt.tiktok.com" ++ str "/")))
                       (Plus is_alnum))).
  destruct Hhost as [-> | ->]; apply re_test_short_link in H as ->;
    by rewrite ?orb_true_r.
Qed.

(** C1, as the code has it: [isValidTikTokUrl] accepts exactly the strings
    that start with [http://] or [https://] followed by one of the four
    forms (canonical with optional [www.], [vm] short link, [vt] short link,
    mobile [/v/<digits>]); the scheme is required. *)
Theorem isValidTikTokUrl_accepted_shape (u : jsstring) :
  isValidTikTokUrl u = true <-> accepted_shape u.
Proof.
  unfold isValidTikTokUrl, accepted_shape, url_shape. cbn [existsb].
  rewrite orb_false_r, !orb_true_iff.
  rewrite re_test_canonical, re_test_mobile.
  change Re.valid_vm with
    (Pattern true (Seq (Seq Re.scheme (Lit (str "vm.tiktok.com" ++ str "/")))
                       (Plus is_alnum))).
  change Re.valid_vt with
    (Pattern true (Seq (Seq Re.scheme (Lit (str "vt.tiktok.com" ++ str "/")))
                       (Plus is_alnum))).
  rewrite !re_test_short_link. split.
  - intros [(sch & b & rest & ? & ? & ?)|[(sch & b & rest & ? & ? & ?)|
            [(sch & b & rest & ? & ? & ?)|(sch & b & rest & ? & ? & ?)]]];
      exists sch, b, rest; tauto.
  - intros (sch & b & rest & ? & ? & [?|[?|[?|?]]]);
      [left|right; left|right; right; left|right; right; right];
      by exists sch, b, rest.
Qed.

(** C1, as the claim words it, fails: a canonical link without a scheme has
    a documented shape and is rejected. *)
Lemma isValidTikTokUrl_requires_scheme :
  documented_shape (str "tiktok.com/@user/video/123") /\
  isValidTikTokUrl (str "tiktok.com/@user/video/123") = false.
Proof.
  split; [|by vm_compute].
  exists [], (str "tiktok.com/@user/video/123"), []. split; [done|].
  split; [by left|]. left. exists [], (str "user"), (str "123").
  split; [done|]. split; [by left|].
  repeat split; try done; unfold holds; by repeat constructor.
Qed.

(** ** [extractVideoId] *)

Lemma take_upto_drop_while p a t :
  take (length (a :: t) - length (drop_while p t)) (a :: t)
  = a :: take_while p t.
Proof.
  assert (length (a :: t) - length (drop_while p t)
          = S (length (take_while p t)))%nat as ->.
  { rewrite <- (take_drop_while p t) at 1. simpl. rewrite length_app. lia. }
  simpl. f_equal. rewrite <- (take_drop_while p t) at 2. apply take_app_length.
Qed.

(** One attempt of an identifier pattern: the prefix, then every digit that
    follows. *)
Lemma exec_here_id_after p s :
  exec_here (body (Re.id_after p)) s =
  match strip_prefix p s with
  | Some t =>
      match take_while is_digit t with
      | [] => None
      | d => Some (drop_while is_digit t, [d])
      end
  | None => None
  end.
Proof.
  unfold exec_here; simpl. destruct (strip_prefix p s) as [t|]; [|done].
  destruct t as [|a t]; [done|]. simpl. destruct (is_digit a) eqn:Ea; [|done].
  rewrite star_total by (intros; eauto).
  change (S (length t)) with (length (a :: t)).
  by rewrite (take_upto_drop_while is_digit a t).
Qed.

Lemma matches_id_after p s :
  matches (body (Re.id_after p)) s <->
  exists d, s = p ++ d /\ d <> [] /\ holds is_digit d.
Proof.
  simpl. rewrite matches_seq_iff. split.
  - intros (s1 & d & -> & H1 & H2). apply matches_lit_iff in H1 as ->.
    apply matches_group_iff, matches_plus_iff in H2. by exists d.
  - intros (d & -> & ? & ?). exists p, d.
    repeat split; [constructor|]. by do 2 constructor.
Qed.

Lemma occurs_id_after p u : occurs (body (Re.id_after p)) u <-> has_id p u.
Proof.
  unfold occurs, has_id. split.
  - intros (pre & mid & post & -> & H).
    apply matches_id_after in H as (d & -> & ? & ?).
    exists pre, d, post. by rewrite <- app_assoc.
  - intros (pre & d & post & -> & ? & ?). exists pre, (p ++ d), post.
    split; [by rewrite <- app_assoc|]. apply matches_id_after. by exists d.
Qed.

Lemma exec_here_id_first p u o :
  exec_here (body (Re.id_after p)) u = Some o ->
  exists d, snd o = [d] /\ first_id p u d.
Proof.
  rewrite exec_here_id_after.
  destruct (strip_prefix p u) as [t|] eqn:Ep; [|done].
  apply strip_prefix_Some in Ep as ->.
  destruct (take_while is_digit t) as [|c d] eqn:Ed; [done|].
  intros [= <-]. exists (c :: d). split; [done|].
  exists [], (drop_while is_digit t).
  split; [by rewrite <- Ed, take_drop_while|].
  split; [done|]. split; [rewrite <- Ed; apply take_while_holds|].
  split; [intros ? ? ?; by eapply drop_while_head|].
  intros; simpl; lia.
Qed.

Lemma search_id_after p u m :
  search (body (Re.id_after p)) u = Some m ->
  exists d, groups m = [d] /\ first_id p u d.
Proof.
  revert m. induction u as [|a u IH]; intros m; cbn [search].
  all: destruct (exec_here (body (Re.id_after p)) _) as [o|] eqn:E.
  - intros [= <-]. by apply exec_here_id_first.
  - done.
  - intros [= <-]. by apply exec_here_id_first.
  - intros H. destruct (IH _ H) as (d & Hg & pre & post & -> & ? & ? & ? & Hleft).
    exists d. split; [done|]. exists (a :: pre), post.
    repeat split; try done.
    intros [|b pre'] d' post' Heq Hne Hd.
    + destruct (exec_here_None _ _ E (p ++ d') post').
      * by rewrite <- app_assoc.
      * apply matches_id_after. by exists d'.
    + injection Heq as -> Heq. simpl. apply le_n_S. by eapply Hleft.
Qed.

Lemma re_exec_id_after_Some p u :
  has_id p u ->
  exists m d, re_exec (Re.id_after p) u = Some m /\ groups m = [d] /\ first_id p u d.
Proof.
  intros H. apply occurs_id_after in H. unfold re_exec; simpl anchored; cbv iota.
  destruct (search (body (Re.id_after p)) u) as [m|] eqn:E.
  - destruct (search_id_after _ _ _ E) as (d & ? & ?). by exists m, d.
  - by apply search_None in E.
Qed.

Lemma re_exec_id_after_None p u :
  ~ has_id p u -> re_exec (Re.id_after p) u = None.
Proof.
  intros H. unfold re_exec; simpl anchored; cbv iota.
  apply search_None. by rewrite occurs_id_after.
Qed.

Lemma extractVideoId_None u :
  ~ has_id id_video u -> ~ has_id id_v u -> ~ has_id id_query u ->
  extractVideoId u = None.
Proof.
  intros N1 N2 N3. unfold extractVideoId; cbn [first_match].
  by rewrite (re_exec_id_after_None _ _ N1), (re_exec_id_after_None _ _ N2),
    (re_exec_id_after_None _ _ N3).
Qed.

(** C5: [extractVideoId] answers with the digits behind the first
    [/video/<digits>]; failing that, behind the first [/v/<digits>]; failing
    that, behind the first [video_id=<digits>]; and with [null] when the URL
    has none of the three. *)
Theorem extractVideoId_priority (u : jsstring) :
  (has_id id_video u ->
   exists d, extractVideoId u = Some d /\ first_id id_video u d) /\
  (~ has_id id_video u -> has_id id_v u ->
   exists d, extractVideoId u = Some d /\ first_id id_v u d) /\
  (~ has_id id_video u -> ~ has_id id_v u -> has_id id_query u ->
   exists d, extractVideoId u = Some d /\ first_id id_query u d) /\
  (~ has_id id_video u -> ~ has_id id_v u -> ~ has_id id_query u ->
   extractVideoId u = None).
Proof.
  unfold extractVideoId; cbn [first_match]. repeat split.
  - intros H. destruct (re_exec_id_after_Some _ _ H) as (m & d & -> & -> & ?).
    by exists d.
  - intros N1 H. rewrite (re_exec_id_after_None _ _ N1).
    destruct (re_exec_id_after_Some _ _ H) as (m & d & -> & -> & ?).
    by exists d.
  - intros N1 N2 H.
    rewrite (re_exec_id_after_None _ _ N1), (re_exec_id_after_None _ _ N2).
    destruct (re_exec_id_after_Some _ _ H) as (m & d & -> & -> & ?).
    by exists d.
  - apply extractVideoId_None.
Qed.

(** ** [cleanTikTokUrl] *)

Lemma contains_spec sub s : includes sub s = true <-> contains sub s.
Proof. apply includes_spec. Qed.

Lemma trim_trimmed u : trimmed u (trim u).
Proof.
  unfold trim, trim_end, trim_start.
  set (u1 := drop_while is_white u).
  set (l2 := take_while is_white (rev u1)).
  assert (u1 = rev (drop_while is_white (rev u1)) ++ rev l2) as Hu1.
  { rewrite <- rev_app_distr. unfold l2. by rewrite take_drop_while, rev_involutive. }
  repeat split.
  - exists (take_while is_white u), (rev l2). split; [|split].
    + by rewrite <- Hu1, take_drop_while.
    + apply take_while_holds.
    + apply Forall_rev, take_while_holds.
  - intros c t' Ht. rewrite Ht in Hu1. simpl in Hu1.
    by apply (drop_while_head is_white u c (t' ++ rev l2)).
  - intros t' c Ht. apply (f_equal (@rev N)) in Ht.
    rewrite rev_involutive, rev_app_distr in Ht. simpl in Ht.
    by eapply drop_while_head.
Qed.

Lemma rmatch_continues r s caps k x :
  rmatch r s caps k = Some x -> exists s2 caps', k s2 caps' = Some x.
Proof.
  intros H. apply rmatch_sound in H as (s1 & s2 & caps' & _ & _ & H). eauto.
Qed.

(** A pattern that ends in [c+] takes every [c] that follows. *)
Lemma exec_here_seq_plus_greedy r1 r2 c s o :
  exec_here (Seq r1 (Seq r2 (Plus c))) s = Some o ->
  forall a t, fst o = a :: t -> c a = false.
Proof.
  unfold exec_here. cbn [rmatch]. intros H.
  apply rmatch_continues in H as (s2 & caps2 & H).
  apply rmatch_continues in H as (s3 & caps3 & H).
  destruct s3 as [|b s3]; [done|]. destruct (c b); [|done].
  rewrite star_total in H by (intros; eauto). injection H as <-.
  cbn [fst]. intros a t. apply drop_while_head.
Qed.

Lemma exec_here_clean_greedy s o :
  exec_here (body Re.clean_canonical) s = Some o ->
  forall c t, fst o = c :: t -> is_digit c = false.
Proof. apply exec_here_seq_plus_greedy. Qed.

(** C4: [cleanTikTokUrl] trims the white space around the string; returns
    the trimmed string when it contains [vm.tiktok.com] or [vt.tiktok.com];
    otherwise returns the leftmost substring that is a canonical link (scheme
    and [www.] optional), taking all the digits of the video, when there is
    one; and the trimmed string when there is none. The string of the
    specification's example comes back without its white space. *)
Theorem cleanTikTokUrl_spec (u : jsstring) :
  trimmed u (trim u) /\
  (contains (str "vm.tiktok.com") (trim u) \/
   contains (str "vt.tiktok.com") (trim u) ->
   cleanTikTokUrl u = trim u) /\
  (~ contains (str "vm.tiktok.com") (trim u) ->
   ~ contains (str "vt.tiktok.com") (trim u) ->
   (exists pre m post, trim u = pre ++ m ++ post /\ canonical_link m) ->
   exists pre post,
     trim u = pre ++ cleanTikTokUrl u ++ post /\
     canonical_link (cleanTikTokUrl u) /\
     (forall c post', post = c :: post' -> is_digit c = false) /\
     (forall pre' m' post',
        trim u = pre' ++ m' ++ post' -> canonical_link m' ->
        (length pre <= length pre')%nat)) /\
  (~ contains (str "vm.tiktok.com") (trim u) ->
   ~ contains (str "vt.tiktok.com") (trim u) ->
   ~ (exists pre m post, trim u = pre ++ m ++ post /\ canonical_link m) ->
   cleanTikTokUrl u = trim u) /\
  cleanTikTokUrl (str "  https://www.tiktok.com/@user/video/1234567890  ")
  = str "https://www.tiktok.com/@user/video/1234567890".
Proof.
  split; [apply trim_trimmed|]. unfold cleanTikTokUrl.
  split; [|split; [|split; [|by vm_compute]]].
  - rewrite <- !contains_spec. intros [-> | ->]; [done|].
    by rewrite orb_true_r.
  - rewrite <- !contains_spec. intros N1 N2 H.
    apply not_true_is_false in N1, N2. rewrite N1, N2. cbn [orb].
    unfold re_exec; simpl anchored; cbv iota.
    destruct (search (body Re.clean_canonical) (trim u)) as [m|] eqn:E.
    + apply search_Some in E as (pre & s' & o & _ & E & _ & Heq & Hm & Hleft).
      exists pre, (fst o). repeat split; try done.
      * by apply matches_clean_canonical.
      * by apply exec_here_clean_greedy with (s := s').
      * intros pre' m' post' Heq' Hm'. eapply Hleft; [done|].
        by apply matches_clean_canonical.
    + apply search_None in E. destruct E.
      destruct H as (pre & m & post & ? & ?). exists pre, m, post.
      split; [done|]. by apply matches_clean_canonical.
  - rewrite <- !contains_spec. intros N1 N2 H.
    apply not_true_is_false in N1, N2. rewrite N1, N2. cbn [orb].
    unfold re_exec; simpl anchored; cbv iota.
    destruct (search (body Re.clean_canonical) (trim u)) as [m|] eqn:E; [|done].
    apply search_Some in E as (pre & s' & o & _ & _ & _ & Heq & Hm & _).
    destruct H. exists pre, (m0 m), (fst o). split; [done|].
    by apply matches_clean_canonical.
Qed.

(** ** The asynchronous methods *)

(** Unfold the monad. *)
Ltac run :=
  repeat progress
    (unfold try_catch, bind, ret, throw, lift, emit, prop, http_get,
       console_error;
     cbv beta iota zeta).

Lemma fetchVideoData_catches w this url t :
  exists t' r, fetchVideoData w this url t = (t', Ok r).
Proof.
  unfold fetchVideoData. run.
  destruct (fetchVideoData_try w this url t) as [t' [v|e]]; eauto.
Qed.

Lemma getWatermarkFreeUrl_catches w this videoId t :
  exists t' r, getWatermarkFreeUrl w this videoId t = (t', Ok r).
Proof.
  unfold getWatermarkFreeUrl. unfold try_catch at 1.
  match goal with |- context [match ?body t with _ => _ end] =>
    destruct (body t) as [t' [v|e]] end; [eauto|]. run. eauto.
Qed.

Lemma extractDownloadUrls_catches w this v t :
  exists t' r, extractDownloadUrls w this v t = (t', Ok r).
Proof.
  unfold extractDownloadUrls. unfold try_catch at 1.
  match goal with |- context [match ?body t with _ => _ end] =>
    destruct (body t) as [t' [d|e]] end; run; eauto.
Qed.

Lemma extractVideoId_nonempty u d : extractVideoId u = Some d -> d <> [].
Proof.
  assert (forall p m d', re_exec (Re.id_after p) u = Some m ->
                         head (groups m) = Some d' -> d' <> []) as Hp.
  { intros p m d' H Hd. change (search (body (Re.id_after p)) u = Some m) in H.
    apply search_id_after in H as (d0 & Hg & pre & post & _ & Hne & _).
    rewrite Hg in Hd. by injection Hd as <-. }
  unfold extractVideoId; cbn [first_match].
  destruct (re_exec (Re.id_after id_video) u) eqn:E1; [by eapply Hp|].
  destruct (re_exec (Re.id_after id_v) u) eqn:E2; [by eapply Hp|].
  destruct (re_exec (Re.id_after id_query) u) eqn:E3; [by eapply Hp|done].
Qed.

Lemma no_id_Some u : is_Some (extractVideoId u) -> no_id (extractVideoId u) = false.
Proof.
  intros [d E]. rewrite E. apply extractVideoId_nonempty in E. by destruct d.
Qed.

(** The ways through [downloadVideo], by the outcome of each step. *)
Lemma downloadVideo_invalid w this url t :
  isValidTikTokUrl (cleanTikTokUrl url) = false ->
  downloadVideo w this url t = (t, Ok invalid_url_result).
Proof.
  unfold downloadVideo, downloadVideo_guard, downloadVideo_try.
  by intros ->.
Qed.

Lemma downloadVideo_no_id w this url t :
  isValidTikTokUrl (cleanTikTokUrl url) = true ->
  extractVideoId (cleanTikTokUrl url) = None ->
  downloadVideo w this url t = (t, Ok no_id_result).
Proof.
  unfold downloadVideo, downloadVideo_guard, downloadVideo_try.
  by intros -> ->.
Qed.

Lemma downloadVideo_fetched w this url t :
  isValidTikTokUrl (cleanTikTokUrl url) = true ->
  is_Some (extractVideoId (cleanTikTokUrl url)) ->
  exists t1 videoData,
    fetchVideoData w this (cleanTikTokUrl url) t = (t1, Ok videoData) /\
    match videoData with
    | None => downloadVideo w this url t = (t1, Ok no_data_result)
    | Some v =>
        exists t2 urls,
          extractDownloadUrls w this v t1 = (t2, Ok urls) /\
          downloadVideo w this url t = (t2, Ok (success_result v urls))
    end.
Proof.
  unfold downloadVideo, downloadVideo_guard, downloadVideo_try.
  intros -> Hid. rewrite no_id_Some by done. cbn [negb].
  destruct (fetchVideoData_catches w this (cleanTikTokUrl url) t)
    as (t1 & videoData & Hf).
  exists t1, videoData. split; [done|]. unfold try_catch, bind, ret.
  rewrite Hf. destruct videoData as [v|]; [|reflexivity].
  destruct (extractDownloadUrls_catches w this v t1) as (t2 & urls & Hu).
  exists t2, urls. split; [done|]. by rewrite Hu.
Qed.

(** C3: [downloadVideo] cleans the URL, validates it, extracts the
    identifier, fetches, and resolves the download URLs, in that order. An
    invalid URL ends it with "Invalid TikTok URL provided" and a URL without
    identifier with "Could not extract video ID from URL", both before any
    request (the trace is unchanged); a fetch without data ends it with
    "Failed to fetch video data"; otherwise the answer is the success
    envelope. *)
Theorem downloadVideo_pipeline (w : World) (this : Options) (url : jsstring)
    (t : list event) :
  let cleanUrl := cleanTikTokUrl url in
  (isValidTikTokUrl cleanUrl = false ->
   downloadVideo w this url t = (t, Ok invalid_url_result)) /\
  (isValidTikTokUrl cleanUrl = true -> extractVideoId cleanUrl = None ->
   downloadVideo w this url t = (t, Ok no_id_result)) /\
  (isValidTikTokUrl cleanUrl = true -> is_Some (extractVideoId cleanUrl) ->
   exists t1 videoData,
     fetchVideoData w this cleanUrl t = (t1, Ok videoData) /\
     match videoData with
     | None => downloadVideo w this url t = (t1, Ok no_data_result)
     | Some v =>
         exists t2 urls,
           extractDownloadUrls w this v t1 = (t2, Ok urls) /\
           downloadVideo w this url t = (t2, Ok (success_result v urls))
     end).
Proof.
  intros cleanUrl. split; [|split].
  - apply downloadVideo_invalid.
  - apply downloadVideo_no_id.
  - apply downloadVideo_fetched.
Qed.

(** C9: the envelope that [downloadVideo] returns has [data] and no [error]
    when [success] is true, and [error] and no [data] when it is false. *)
Theorem downloadVideo_one_payload (w : World) (this : Options) (url : jsstring)
    (t : list event) :
  exists t' r,
    downloadVideo w this url t = (t', Ok r) /\
    (success r = true -> is_Some (data r) /\ error r = None) /\
    (success r = false -> data r = None /\ is_Some (error r)).
Proof.
  pose proof (downloadVideo_invalid w this url t) as H1.
  pose proof (downloadVideo_no_id w this url t) as H2.
  pose proof (downloadVideo_fetched w this url t) as H3.
  destruct (isValidTikTokUrl (cleanTikTokUrl url)) eqn:Ev.
  - destruct (extractVideoId (cleanTikTokUrl url)) as [d|] eqn:Ed.
    + destruct H3 as (t1 & [v|] & _ & H); [done|by eexists| |].
      * destruct H as (t2 & urls & _ & ->). eexists _, _. split; [done|].
        split; [by eauto|done].
      * rewrite H. eexists _, _. split; [done|]. split; [done|by eauto].
    + rewrite H2 by done. eexists _, _. split; [done|]. split; [done|by eauto].
  - rewrite H1 by done. eexists _, _. split; [done|]. split; [done|by eauto].
Qed.

(** ** The mirror step *)

Lemma getWatermarkFreeUrl_run w this videoId t :
  getWatermarkFreeUrl w this videoId t
  = (t ++ mirror_events w this videoId, Ok (mirror_value w this videoId)).
Proof.
  unfold mirror_value, mirror_events, getWatermarkFreeUrl. run.
  destruct (template_text w videoId) as [idText|e0]; run; [|reflexivity].
  destruct (axios_get w _ _ _) as [response_data|e]; run;
    [|by rewrite <- app_assoc].
  destruct (truthy response_data) eqn:E1; run.
  2:{ rewrite E1. by destruct response_data as [| |[]|n|[]| |]. }
  destruct response_data as [| |b|n|s|items|fields]; try discriminate E1;
    cbn [get_prop noWatermark_of]; run; try reflexivity.
  destruct (fields !! str "video") as [v|]; [|reflexivity].
  change (default JUndefined (Some v)) with v.
  destruct (truthy v) eqn:E2; run.
  2:{ rewrite E2. by destruct v as [| |[]|n|[]| |]. }
  destruct v as [| |b|n|s|items|video_fields]; try discriminate E2;
    cbn [get_prop]; run; try reflexivity.
  by destruct (truthy (default JUndefined (video_fields !! str "noWatermark"))).
Qed.

Lemma mirror_fails_value w this videoId :
  mirror_fails w this videoId -> mirror_value w this videoId = JNull.
Proof.
  unfold mirror_fails, mirror_value.
  destruct (template_text w videoId) as [idText|e0]; [|done].
  destruct (axios_get w _ _ _) as [response_data|e]; [|done]. by intros ->.
Qed.

Lemma extractDownloadUrls_run w this v t :
  extractDownloadUrls w this v t =
  if includeWatermark this then (t, Ok (plain_urls v))
  else (t ++ mirror_events w this (id v),
        Ok {| video := videoUrl v;
              audio := music_url (music v);
              watermarkFree :=
                if truthy (mirror_value w this (id v))
                then Some (mirror_value w this (id v))
                else None |}).
Proof.
  unfold extractDownloadUrls. unfold try_catch, bind, ret.
  destruct (includeWatermark this); [done|]. cbn [negb].
  rewrite getWatermarkFreeUrl_run.
  by destruct (truthy (mirror_value w this (id v))).
Qed.

Lemma getWatermarkFreeUrl_fails w this videoId t :
  mirror_fails w this videoId ->
  getWatermarkFreeUrl w this videoId t
  = (t ++ mirror_events w this videoId, Ok JNull).
Proof.
  intros H. by rewrite getWatermarkFreeUrl_run, (mirror_fails_value _ _ _ H).
Qed.

Lemma extractDownloadUrls_keeps_watermark w this v t :
  includeWatermark this = true ->
  extractDownloadUrls w this v t = (t, Ok (plain_urls v)).
Proof. unfold extractDownloadUrls. run. by intros ->. Qed.

Lemma extractDownloadUrls_mirror_fails w this v t :
  includeWatermark this = false ->
  mirror_fails w this (id v) ->
  extractDownloadUrls w this v t
  = (t ++ mirror_events w this (id v), Ok (plain_urls v)).
Proof.
  intros Hw Hm. unfold extractDownloadUrls. unfold try_catch, bind, ret.
  rewrite Hw. cbn [negb]. by rewrite getWatermarkFreeUrl_fails.
Qed.

(** C7: with [includeWatermark] set, [extractDownloadUrls] answers with the
    video and audio URLs alone and leaves the trace as it was, so no request
    goes to the mirror, whatever the mirror would have answered; and no
    envelope of [downloadVideo] carries a [watermarkFree] entry. *)
Theorem extractDownloadUrls_with_watermark (w : World) (this : Options)
    (v : TikTokVideoInfo) (t : list event) :
  includeWatermark this = true ->
  extractDownloadUrls w this v t = (t, Ok (plain_urls v)) /\
  (forall url t' r d,
     downloadVideo w this url t = (t', Ok r) -> data r = Some d ->
     watermarkFree (downloadUrls d) = None).
Proof.
  intros Hw. split; [by apply extractDownloadUrls_keeps_watermark|].
  intros url t' r d Hr Hd.
  pose proof (downloadVideo_invalid w this url t) as H1.
  pose proof (downloadVideo_no_id w this url t) as H2.
  pose proof (downloadVideo_fetched w this url t) as H3.
  destruct (isValidTikTokUrl (cleanTikTokUrl url)) eqn:Ev.
  - destruct (extractVideoId (cleanTikTokUrl url)) as [i|] eqn:Ei.
    + destruct H3 as (t1 & [v'|] & _ & H); [done|by eexists| |].
      * destruct H as (t2 & urls & Hu & H). rewrite H in Hr.
        rewrite extractDownloadUrls_keeps_watermark in Hu by done.
        injection Hu as <- <-. injection Hr as <- <-.
        by injection Hd as <-.
      * rewrite H in Hr. injection Hr as <- <-. done.
    + rewrite H2 in Hr by done. injection Hr as <- <-. done.
  - rewrite H1 in Hr by done. injection Hr as <- <-. done.
Qed.

Lemma extractDownloadUrls_with_watermark_witness :
  extractDownloadUrls (Demo.world (Ok Demo.mirror_answer)) (Demo.options true)
    Demo.info []
  = ([], Ok (plain_urls Demo.info)).
Proof.
  exact (proj1 (extractDownloadUrls_with_watermark
                  (Demo.world (Ok Demo.mirror_answer)) (Demo.options true)
                  Demo.info [] eq_refl)).
Defined.

(** C8: without [includeWatermark], when the page gives its data and the
    mirror call fails (the video id has no text for the URL, the request
    throws, or the answer has no usable [video.noWatermark], as a malformed
    answer has none), [downloadVideo] still answers with the success
    envelope, whose download URLs are the video and the audio URL and no
    [watermarkFree]; the mirror was asked once at most (not at all when the
    id has no text). *)
Theorem downloadVideo_mirror_failure (w : World) (this : Options)
    (url : jsstring) (t t1 : list event) (v : TikTokVideoInfo) :
  includeWatermark this = false ->
  isValidTikTokUrl (cleanTikTokUrl url) = true ->
  is_Some (extractVideoId (cleanTikTokUrl url)) ->
  fetchVideoData w this (cleanTikTokUrl url) t = (t1, Ok (Some v)) ->
  mirror_fails w this (id v) ->
  downloadVideo w this url t
  = (t1 ++ mirror_events w this (id v), Ok (success_result v (plain_urls v))).
Proof.
  intros Hw Hv Hi Hf Hm.
  destruct (downloadVideo_fetched w this url t Hv Hi)
    as (t1' & videoData & Hf' & Hd).
  rewrite Hf in Hf'. injection Hf' as <- <-.
  destruct Hd as (t2 & urls & Hu & ->).
  rewrite extractDownloadUrls_mirror_fails in Hu by done.
  by injection Hu as <- <-.
Qed.

Lemma downloadVideo_mirror_failure_witness :
  downloadVideo Demo.bad_gateway (Demo.options false) Demo.url []
  = ([EvGet Demo.url (page_headers (Demo.options false)) 30000;
      EvGet (mirror_api_url (str "111222333"))
            (mirror_headers (Demo.options false)) 30000],
     Ok (success_result Demo.info (plain_urls Demo.info))) /\
  downloadVideo Fixture.sealed_page Fixture.options Demo.url []
  = ([EvGet Demo.url (page_headers Fixture.options) 30000;
      EvConsoleError (str "Error getting watermark-free URL:")
        (ErrorObj (str "Cannot convert object to primitive value"))],
     Ok (success_result Fixture.sealed_info (plain_urls Fixture.sealed_info))).
Proof.
  split.
  - apply (downloadVideo_mirror_failure
             Demo.bad_gateway (Demo.options false) Demo.url []
             [EvGet Demo.url (page_headers (Demo.options false)) 30000]
             Demo.info).
    + reflexivity.
    + vm_compute. reflexivity.
    + vm_compute. eexists. reflexivity.
    + vm_compute. reflexivity.
    + vm_compute. reflexivity.
  - apply (downloadVideo_mirror_failure
             Fixture.sealed_page Fixture.options Demo.url []
             [EvGet Demo.url (page_headers Fixture.options) 30000]
             Fixture.sealed_info).
    + reflexivity.
    + vm_compute. reflexivity.
    + vm_compute. eexists. reflexivity.
    + vm_compute. reflexivity.
    + vm_compute. exact I.
Defined.

(** ** Exceptions *)

(** C2, as the code has it: [downloadVideo] always resolves to an envelope
    and never throws. The page fetch, the URL resolver and the mirror call
    catch their own exceptions, so none of them throws; an exception that
    reaches the [try] of [downloadVideo] becomes the failure envelope "An
    error occurred while processing the video", whose detail is the message
    of the exception when it is an Error and "Unknown error" otherwise. *)
Theorem downloadVideo_never_throws (w : World) (this : Options)
    (url : jsstring) (t : list event) :
  (exists t' r, downloadVideo w this url t = (t', Ok r)) /\
  (forall body t0 t1 e,
     body t0 = (t1, Throw e) ->
     downloadVideo_guard body t0 = (t1, Ok (unexpected_result e))) /\
  (forall body t0 t1 r,
     body t0 = (t1, Ok r) -> downloadVideo_guard body t0 = (t1, Ok r)) /\
  (forall u t0, exists t1 r, fetchVideoData w this u t0 = (t1, Ok r)) /\
  (forall v t0, exists t1 r, extractDownloadUrls w this v t0 = (t1, Ok r)) /\
  (forall i t0, exists t1 r, getWatermarkFreeUrl w this i t0 = (t1, Ok r)).
Proof.
  split; [|split; [|split; [|split; [|split]]]].
  - unfold downloadVideo, downloadVideo_guard, try_catch, downloadVideo_catch.
    destruct (downloadVideo_try w this url t) as [t' [r|e]]; run; eauto.
  - intros body t0 t1 e H. unfold downloadVideo_guard, try_catch. rewrite H.
    by destruct e.
  - intros body t0 t1 r H. unfold downloadVideo_guard, try_catch. by rewrite H.
  - intros. apply fetchVideoData_catches.
  - intros. apply extractDownloadUrls_catches.
  - intros. apply getWatermarkFreeUrl_catches.
Qed.

(** C2, as the claim words it, fails: the exception of a page fetch that
    times out is caught in [fetchVideoData], and the envelope carries a fixed
    detail, not the message of the exception; the exception of the mirror
    call ends in a success envelope. *)
Lemma downloadVideo_hides_fetch_exception :
  axios_get Demo.offline Demo.url (page_headers (Demo.options false)) 30000
  = Throw (ErrorObj (str "timeout of 30000ms exceeded")) /\
  (exists t', downloadVideo Demo.offline (Demo.options false) Demo.url []
              = (t', Ok no_data_result)) /\
  error no_data_result <> Some (str "timeout of 30000ms exceeded") /\
  template_text Demo.mirror_down (id Demo.info) = Ok (str "111222333") /\
  axios_get Demo.mirror_down (mirror_api_url (str "111222333"))
    (mirror_headers (Demo.options false)) 30000
  = Throw (ErrorObj (str "Network Error")) /\
  (exists t', downloadVideo Demo.mirror_down (Demo.options false) Demo.url []
              = (t', Ok (success_result Demo.info (plain_urls Demo.info)))).
Proof.
  split; [reflexivity|]. split; [eexists; vm_compute; reflexivity|].
  split; [intros H; vm_compute in H; discriminate H|].
  split; [reflexivity|].
  split; [vm_compute; reflexivity|]. eexists; vm_compute; reflexivity.
Qed.

(** ** [fetchVideoData] *)

Lemma js_or_counter o :
  counter_ok o -> js_or (default JUndefined o) (JNum 0) = default (JNum 0) o.
Proof.
  intros [->|[n ->]]; [done|]. unfold js_or; simpl.
  by destruct (Z.eqb_spec n 0) as [->|].
Qed.

Lemma js_or_text o :
  text_ok o -> js_or (default JUndefined o) (JStr []) = default (JStr []) o.
Proof. intros [->|[s ->]]; [done|]. by destruct s. Qed.

(** The object literal, when [stats], [music] and [video] are objects. *)
Lemma project_objects item stats music video t :
  item !! str "stats" = Some (JObj stats) ->
  item !! str "music" = Some (JObj music) ->
  item !! str "video" = Some (JObj video) ->
  project (JObj item) t =
  (t, Ok {| id := default JUndefined (item !! str "id");
            title := js_or (default JUndefined (item !! str "desc")) (JStr []);
            description := js_or (default JUndefined (item !! str "desc")) (JStr []);
            duration := default JUndefined (video !! str "duration");
            playCount := js_or (default JUndefined (stats !! str "playCount")) (JNum 0);
            likeCount := js_or (default JUndefined (stats !! str "diggCount")) (JNum 0);
            commentCount := js_or (default JUndefined (stats !! str "commentCount")) (JNum 0);
            shareCount := js_or (default JUndefined (stats !! str "shareCount")) (JNum 0);
            createTime := default JUndefined (item !! str "createTime");
            videoUrl := default JUndefined (video !! str "playAddr");
            coverUrl := default JUndefined (video !! str "cover");
            dynamicCoverUrl := default JUndefined (video !! str "dynamicCover");
            music := {| music_id := default JUndefined (music !! str "id");
                        music_title := default JUndefined (music !! str "title");
                        music_author := default JUndefined (music !! str "authorName");
                        music_duration := default JUndefined (music !! str "duration");
                        music_url := default JUndefined (music !! str "playUrl") |} |}).
Proof.
  intros Hs Hm Hv. unfold project. run. cbn [get_prop].
  rewrite Hs, Hm, Hv.
  change (default JUndefined (Some (JObj stats))) with (JObj stats).
  change (default JUndefined (Some (JObj music))) with (JObj music).
  change (default JUndefined (Some (JObj video))) with (JObj video).
  run. reflexivity.
Qed.

Lemma item_of_Some root item :
  item_of root = Some item ->
  exists r scope detail info,
    root = JObj r /\
    r !! str "__DEFAULT_SCOPE__" = Some (JObj scope) /\
    scope !! str "webapp.video-detail" = Some (JObj detail) /\
    detail !! str "itemInfo" = Some (JObj info) /\
    info !! str "itemStruct" = Some (JObj item).
Proof.
  unfold item_of. destruct root as [| | | | | |r]; try done.
  destruct (r !! str "__DEFAULT_SCOPE__") as [[| | | | | |scope]|] eqn:E1; try done.
  destruct (scope !! str "webapp.video-detail") as [[| | | | | |detail]|] eqn:E2;
    try done.
  destruct (detail !! str "itemInfo") as [[| | | | | |info]|] eqn:E3; try done.
  destruct (info !! str "itemStruct") as [[| | | | | |item']|] eqn:E4; try done.
  intros [= <-]. by exists r, scope, detail, info.
Qed.

(** The fetch of a page whose embedded JSON leads to [item]. *)
Lemma fetchVideoData_try_item w this url t root item :
  page_embeds w this url root ->
  item_of root = Some item ->
  fetchVideoData_try w this url t
  = project (JObj item) (t ++ [EvGet url (page_headers this) (timeout this)]).
Proof.
  intros (response_data & [|c script] & Ha & Hc & Hne & Hj) Hi; [done|].
  apply item_of_Some in Hi as (r & scope & detail & info & -> & H1 & H2 & H3 & H4).
  unfold fetchVideoData_try. run. rewrite Ha. run. rewrite Hc. run.
  rewrite Hj. run. cbn [get_prop]. rewrite H1.
  change (default JUndefined (Some (JObj scope))) with (JObj scope).
  run. cbn [get_prop]. rewrite H2.
  change (default JUndefined (Some (JObj detail))) with (JObj detail).
  run. cbn [truthy negb get_prop]. run. rewrite H3.
  change (default JUndefined (Some (JObj info))) with (JObj info).
  cbn [truthy negb get_prop]. run. rewrite H4.
  reflexivity.
Qed.

(** C6: for a page whose embedded JSON leads to an [itemStruct] with
    [stats], [music] and [video] objects, whose counters are numbers where
    present and whose [desc] is a string where present, [fetchVideoData]
    answers with a video info whose four counters are the fields
    [playCount], [diggCount], [commentCount] and [shareCount] of [stats], 0
    standing for an absent one, and whose title and description are both
    [desc], the empty string standing for an absent one. *)
Theorem fetchVideoData_projects (w : World) (this : Options) (url : jsstring)
    (t : list event) (root : jsval) (item stats music video : gmap jsstring jsval) :
  page_embeds w this url root ->
  item_of root = Some item ->
  item !! str "stats" = Some (JObj stats) ->
  item !! str "music" = Some (JObj music) ->
  item !! str "video" = Some (JObj video) ->
  counter_ok (stats !! str "playCount") ->
  counter_ok (stats !! str "diggCount") ->
  counter_ok (stats !! str "commentCount") ->
  counter_ok (stats !! str "shareCount") ->
  text_ok (item !! str "desc") ->
  exists v,
    fetchVideoData w this url t
    = (t ++ [EvGet url (page_headers this) (timeout this)], Ok (Some v)) /\
    playCount v = default (JNum 0) (stats !! str "playCount") /\
    likeCount v = default (JNum 0) (stats !! str "diggCount") /\
    commentCount v = default (JNum 0) (stats !! str "commentCount") /\
    shareCount v = default (JNum 0) (stats !! str "shareCount") /\
    title v = default (JStr []) (item !! str "desc") /\
    description v = default (JStr []) (item !! str "desc").
Proof.
  intros Hp Hi Hs Hm Hv C1 C2 C3 C4 T1.
  eexists. split.
  - unfold fetchVideoData. unfold try_catch, bind at 1.
    rewrite (fetchVideoData_try_item _ _ _ _ _ _ Hp Hi).
    rewrite (project_objects _ _ _ _ _ Hs Hm Hv). reflexivity.
  - cbn [playCount likeCount commentCount shareCount title description].
    by rewrite !js_or_counter, !js_or_text.
Qed.

Lemma fetchVideoData_projects_witness :
  exists v,
    fetchVideoData Demo.mirror_down (Demo.options false) Demo.url []
    = ([] ++ [EvGet Demo.url (page_headers (Demo.options false)) 30000],
       Ok (Some v)) /\
    playCount v = JNum 1000 /\
    likeCount v = JNum 42 /\
    commentCount v = JNum 0 /\
    shareCount v = JNum 0 /\
    title v = JStr (str "a demo") /\
    description v = JStr (str "a demo").
Proof.
  refine (fetchVideoData_projects Demo.mirror_down (Demo.options false) Demo.url
            [] Demo.root Demo.item Demo.stats
            (list_to_map [(str "id", JStr (str "7"));
                          (str "playUrl", JStr (str "https://cdn/a.mp3"))])
            (list_to_map [(str "duration", JNum 15);
                          (str "playAddr", JStr (str "https://cdn/v.mp4"))])
            _ _ _ _ _ _ _ _ _ _).
  - exists (JStr Demo.html), Demo.script. by vm_compute.
  - by vm_compute.
  - by vm_compute.
  - by vm_compute.
  - by vm_compute.
  - right. exists 1000%Z. by vm_compute.
  - right. exists 42%Z. by vm_compute.
  - left. by vm_compute.
  - left. by vm_compute.
  - right. exists (str "a demo"). by vm_compute.
Defined.

(** ** Short links *)

Lemma is_alnum_not_white c : is_alnum c = true -> is_white c = false.
Proof.
  unfold is_alnum, is_digit, is_white.
  rewrite !orb_true_iff, !andb_true_iff, !N.leb_le.
  rewrite !orb_false_iff, andb_false_iff, !N.eqb_neq, !N.leb_gt. lia.
Qed.

Lemma is_scheme_head sch :
  is_scheme sch -> exists c sch', sch = c :: sch' /\ is_white c = false.
Proof. intros [->| ->]; by eexists _, _. Qed.

(** White space is trimmed behind a prefix that starts and ends with other
    characters, and nowhere else. *)
Lemma trim_keeps_prefix c p x rest :
  is_white c = false -> is_white x = false ->
  trim ((c :: p ++ [x]) ++ rest) = (c :: p ++ [x]) ++ trim_end rest.
Proof.
  intros Hc Hx. unfold trim, trim_start. simpl drop_while. rewrite Hc.
  unfold trim_end.
  change (c :: (p ++ [x]) ++ rest) with ((c :: p ++ [x]) ++ rest).
  rewrite rev_app_distr.
  change (c :: p ++ [x]) with ((c :: p) ++ [x]). rewrite (rev_app_distr (c :: p)).
  cbn [rev app]. rewrite drop_while_app_stop by done.
  rewrite rev_app_distr. cbn [rev]. rewrite <- app_assoc.
  f_equal. cbn [app]. rewrite rev_app_distr, rev_involutive. cbn [rev app].
  by rewrite <- app_assoc.
Qed.

Lemma has_id_trim p u : has_id p (trim u) -> has_id p u.
Proof.
  intros (pre & d & post & Heq & ? & ?).
  destruct (trim_trimmed u) as ((l & r & Hu & _) & _).
  exists (l ++ pre), d, (post ++ r). split; [|done].
  rewrite Hu, Heq. by rewrite <- !app_assoc.
Qed.

(** A short link survives the cleaning, up to white space at its end, and
    passes the validation. *)
Lemma short_link_clean_valid host u :
  host = str "vm.tiktok.com" \/ host = str "vt.tiktok.com" ->
  (exists sch b rest, u = sch ++ b ++ rest /\ is_scheme sch /\ short_link_form host b) ->
  cleanTikTokUrl u = trim u /\ isValidTikTokUrl (trim u) = true.
Proof.
  intros Hhost (sch & b & rest & -> & Hs & code & -> & Hne & Hc).
  destruct (is_scheme_head _ Hs) as (c & sch' & Hsch & Hw).
  destruct (exists_last Hne) as (code' & x & ->).
  assert (is_white x = false) as Hx.
  { apply is_alnum_not_white. apply Forall_app in Hc as [_ Hc].
    by inversion Hc. }
  assert (trim (sch ++ (host ++ str "/" ++ code' ++ [x]) ++ rest)
          = sch ++ (host ++ str "/" ++ code' ++ [x]) ++ trim_end rest) as Ht.
  { rewrite Hsch.
    replace ((c :: sch') ++ (host ++ str "/" ++ code' ++ [x]) ++ rest)
      with ((c :: (sch' ++ host ++ str "/" ++ code') ++ [x]) ++ rest)
      by (cbn [app]; by rewrite <- !app_assoc).
    rewrite trim_keeps_prefix by done. cbn [app]. by rewrite <- !app_assoc. }
  rewrite Ht. split.
  - unfold cleanTikTokUrl. rewrite Ht.
    assert (includes (str "vm.tiktok.com")
              (sch ++ (host ++ str "/" ++ code' ++ [x]) ++ trim_end rest)
            || includes (str "vt.tiktok.com")
                 (sch ++ (host ++ str "/" ++ code' ++ [x]) ++ trim_end rest)
            = true) as ->; [|done].
    apply orb_true_iff.
    destruct Hhost as [-> | ->]; [left|right]; apply includes_spec;
      exists sch, ((str "/" ++ code' ++ [x]) ++ trim_end rest);
      by rewrite <- !app_assoc.
  - apply (isValidTikTokUrl_short_link host); [done|].
    exists sch, (host ++ str "/" ++ code' ++ [x]), (trim_end rest).
    split; [done|]. split; [done|]. by exists (code' ++ [x]).
Qed.

(** C10: a short link, one that starts with a scheme and [vm.tiktok.com/]
    or [vt.tiktok.com/] and a code, and in which none of [/video/<digits>],
    [/v/<digits>] and [video_id=<digits>] occurs, passes the validation and
    ends with the failure "Could not extract video ID from URL"; the trace is
    unchanged, so nothing was fetched. *)
Theorem short_link_never_fetches (w : World) (this : Options) (u : jsstring)
    (t : list event) :
  (exists sch b rest,
     u = sch ++ b ++ rest /\ is_scheme sch /\
     (short_link_form (str "vm.tiktok.com") b \/
      short_link_form (str "vt.tiktok.com") b)) ->
  ~ has_id id_video u -> ~ has_id id_v u -> ~ has_id id_query u ->
  isValidTikTokUrl (cleanTikTokUrl u) = true /\
  downloadVideo w this u t = (t, Ok no_id_result).
Proof.
  intros (sch & b & rest & Hu & Hs & Hb) N1 N2 N3.
  assert (cleanTikTokUrl u = trim u /\ isValidTikTokUrl (trim u) = true)
    as [Hc Hv].
  { destruct Hb as [Hb|Hb];
      [apply (short_link_clean_valid (str "vm.tiktok.com"))
      |apply (short_link_clean_valid (str "vt.tiktok.com"))];
      try tauto; by exists sch, b, rest. }
  rewrite Hc. split; [done|].
  apply downloadVideo_no_id; rewrite Hc; [done|].
  apply extractVideoId_None; intros ?%has_id_trim; tauto.
Qed.

Lemma short_link_never_fetches_witness :
  isValidTikTokUrl (cleanTikTokUrl (str "https://vm.tiktok.com/ZMabc123 ")) = true /\
  downloadVideo Demo.mirror_down (Demo.options false)
    (str "https://vm.tiktok.com/ZMabc123 ") []
  = ([], Ok no_id_result).
Proof.
  apply (short_link_never_fetches Demo.mirror_down (Demo.options false)
           (str "https://vm.tiktok.com/ZMabc123 ") []).
  - exists (str "https://"), (str "vm.tiktok.com/ZMabc123"), (str " ").
    split; [reflexivity|]. split; [by right|]. left.
    exists (str "ZMabc123"). split; [reflexivity|]. split; [done|].
    unfold holds. by repeat constructor.
  - intros H. apply occurs_id_after, search_None in H; [done|by vm_compute].
  - intros H. apply occurs_id_after, search_None in H; [done|by vm_compute].
  - intros H. apply occurs_id_after, search_None in H; [done|by vm_compute].
Defined.

(** ** The examples of the documentation *)

Example valid_canonical_url :
  isValidTikTokUrl (str "https://www.tiktok.com/@username/video/1234567890") = true.
Proof. by vm_compute. Qed.

Example valid_vm_url : isValidTikTokUrl (str "https://vm.tiktok.com/ZMxxxxxxxx") = true.
Proof. by vm_compute. Qed.

Example valid_vt_url : isValidTikTokUrl (str "https://vt.tiktok.com/ZSxxxxxxxx") = true.
Proof. by vm_compute. Qed.

Example valid_mobile_url :
  isValidTikTokUrl (str "https://m.tiktok.com/v/1234567890") = true.
Proof. by vm_compute. Qed.

Example invalid_other_host :
  isValidTikTokUrl (str "https://example.com/@user/video/1") = false.
Proof. by vm_compute. Qed.

Example clean_short_link :
  cleanTikTokUrl (str " https://vm.tiktok.com/ZMxxxxxxxx ")
  = str "https://vm.tiktok.com/ZMxxxxxxxx".
Proof. by vm_compute. Qed.

Example clean_embedded_link :
  cleanTikTokUrl (str "see www.tiktok.com/@user/video/42?lang=en now")
  = str "www.tiktok.com/@user/video/42".
Proof. by vm_compute. Qed.

Example id_of_canonical :
  extractVideoId (str "https://www.tiktok.com/@user/video/1234567890")
  = Some (str "1234567890").
Proof. by vm_compute. Qed.

Example id_of_mobile :
  extractVideoId (str "https://m.tiktok.com/v/1234567890.html") = Some (str "1234567890").
Proof. by vm_compute. Qed.

Example id_prefers_video :
  extractVideoId (str "https://x/v/1/video/2?video_id=3") = Some (str "2").
Proof. by vm_compute. Qed.

Example id_of_short_link : extractVideoId (str "https://vm.tiktok.com/ZMxxxxxxxx") = None.
Proof. by vm_compute. Qed.

(** The page of [Demo] with a mirror that answers: the success envelope has
    [likeCount] 42 and the watermark-free URL, after two requests. *)
Example downloadVideo_demo :
  downloadVideo (Demo.world (Ok Demo.mirror_answer)) (Demo.options false) Demo.url []
  = ([EvGet Demo.url (page_headers (Demo.options false)) 30000;
      EvGet (mirror_api_url (str "111222333"))
            (mirror_headers (Demo.options false)) 30000],
     Ok (success_result Demo.info
           {| video := JStr (str "https://cdn/v.mp4");
              audio := JStr (str "https://cdn/a.mp3");
              watermarkFree := Some (JStr (str "https://mirror/clean.mp4")) |})).
Proof. by vm_compute. Qed.

Example downloadVideo_offline :
  downloadVideo Demo.offline (Demo.options false) Demo.url []
  = ([EvGet Demo.url (page_headers (Demo.options false)) 30000;
      EvConsoleError (str "Error fetching video data:")
        (ErrorObj (str "timeout of 30000ms exceeded"))],
     Ok no_data_result).
Proof. by vm_compute. Qed.

(** * Further properties of the URL helpers *)

Lemma extractVideoId_first_id u d :
  extractVideoId u = Some d ->
  first_id id_video u d \/ first_id id_v u d \/ first_id id_query u d.
Proof.
  assert (forall p m, re_exec (Re.id_after p) u = Some m ->
                      head (groups m) = Some d -> first_id p u d) as Hp.
  { intros p m H Hd. change (search (body (Re.id_after p)) u = Some m) in H.
    apply search_id_after in H as (d0 & Hg & H). rewrite Hg in Hd.
    by injection Hd as <-. }
  unfold extractVideoId; cbn [first_match].
  destruct (re_exec (Re.id_after id_video) u) eqn:E1; [left; by eapply Hp|].
  destruct (re_exec (Re.id_after id_v) u) eqn:E2; [right; left; by eapply Hp|].
  destruct (re_exec (Re.id_after id_query) u) eqn:E3; [|done].
  right; right; by eapply Hp.
Qed.

(** X1: an identifier that [extractVideoId] returns is a non-empty run of
    decimal digits taken from the URL. *)
Theorem extractVideoId_digits (u d : jsstring) :
  extractVideoId u = Some d -> d <> [] /\ holds is_digit d /\ contains d u.
Proof.
  intros H.
  assert (exists p, first_id p u d) as (p & pre & post & -> & ? & ? & _).
  { apply extractVideoId_first_id in H as [?|[?|?]]; eauto. }
  repeat split; try done. exists (pre ++ p), post. by rewrite <- !app_assoc.
Qed.

Lemma extractVideoId_digits_witness :
  str "77" <> [] /\ holds is_digit (str "77") /\
  contains (str "77") (str "https://m.tiktok.com/v/77.html").
Proof.
  apply (extractVideoId_digits (str "https://m.tiktok.com/v/77.html") (str "77")).
  by vm_compute.
Defined.

Lemma has_id_is_Some p u :
  p = id_video \/ p = id_v \/ p = id_query ->
  has_id p u -> is_Some (extractVideoId u).
Proof.
  assert (forall p m, re_exec (Re.id_after p) u = Some m ->
                      is_Some (head (groups m))) as Hs.
  { intros p' m H. change (search (body (Re.id_after p')) u = Some m) in H.
    apply search_id_after in H as (d0 & -> & _). by eexists. }
  assert (forall p, has_id p u -> is_Some (re_exec (Re.id_after p) u)) as Hh.
  { intros p' H. destruct (re_exec_id_after_Some _ _ H) as (m & _ & -> & _).
    by eexists. }
  intros Hp H. unfold extractVideoId; cbn [first_match].
  destruct (re_exec (Re.id_after id_video) u) eqn:E1; [by eapply Hs|].
  destruct (re_exec (Re.id_after id_v) u) eqn:E2; [by eapply Hs|].
  destruct (re_exec (Re.id_after id_query) u) eqn:E3; [by eapply Hs|].
  destruct Hp as [->|[->| ->]]; apply Hh in H as [m Hm]; congruence.
Qed.

Lemma isValidTikTokUrl_forms u :
  isValidTikTokUrl u = true ->
  exists sch b rest,
    u = sch ++ b ++ rest /\ is_scheme sch /\
    (canonical_form b \/ short_link_form (str "vm.tiktok.com") b \/
     short_link_form (str "vt.tiktok.com") b \/ mobile_form b).
Proof.
  unfold isValidTikTokUrl. cbn [existsb].
  rewrite orb_false_r, !orb_true_iff.
  rewrite re_test_canonical, re_test_mobile.
  change Re.valid_vm with
    (Pattern true (Seq (Seq Re.scheme (Lit (str "vm.tiktok.com" ++ str "/")))
                       (Plus is_alnum))).
  change Re.valid_vt with
    (Pattern true (Seq (Seq Re.scheme (Lit (str "vt.tiktok.com" ++ str "/")))
                       (Plus is_alnum))).
  rewrite !re_test_short_link.
  intros [(sch & b & rest & ? & ? & ?)|[(sch & b & rest & ? & ? & ?)|
          [(sch & b & rest & ? & ? & ?)|(sch & b & rest & ? & ? & ?)]]];
    exists sch, b, rest; tauto.
Qed.

(** X2: a URL that passes the validation and has no identifier is a short
    link: the failure "Could not extract video ID from URL" is kept for the
    [vm] and [vt] hosts, and a valid canonical or mobile link always has an
    identifier. *)
Theorem valid_without_id_is_short_link (u : jsstring) :
  isValidTikTokUrl u = true -> extractVideoId u = None ->
  exists sch b rest,
    u = sch ++ b ++ rest /\ is_scheme sch /\
    (short_link_form (str "vm.tiktok.com") b \/
     short_link_form (str "vt.tiktok.com") b).
Proof.
  intros Hv Hn.
  apply isValidTikTokUrl_forms in Hv as (sch & b & rest & -> & Hs & Hb).
  assert (forall p, p = id_video \/ p = id_v \/ p = id_query ->
                    ~ has_id p (sch ++ b ++ rest)) as Hno.
  { intros p Hp H. apply (has_id_is_Some _ _ Hp) in H as [d Hd]. congruence. }
  destruct Hb as [Hb|[Hb|[Hb|Hb]]].
  - destruct Hb as (www & handle & digits & -> & _ & _ & _ & ? & ?).
    destruct (Hno id_video); [by left|].
    exists (sch ++ www ++ str "tiktok.com/@" ++ handle), digits, rest.
    split; [|done]. unfold id_video. by rewrite <- !app_assoc.
  - exists sch, b, rest. tauto.
  - exists sch, b, rest. tauto.
  - destruct Hb as (digits & -> & ? & ?).
    destruct (Hno id_v); [right; by left|].
    exists (sch ++ str "m.tiktok.com"), digits, rest.
    split; [|done]. unfold id_v. rewrite <- !app_assoc. reflexivity.
Qed.

Lemma valid_without_id_is_short_link_witness :
  exists sch b rest,
    str "https://vt.tiktok.com/ZSabc/" = sch ++ b ++ rest /\ is_scheme sch /\
    (short_link_form (str "vm.tiktok.com") b \/
     short_link_form (str "vt.tiktok.com") b).
Proof.
  apply (valid_without_id_is_short_link (str "https://vt.tiktok.com/ZSabc/"));
    by vm_compute.
Defined.

Lemma re_test_anchored_app r u x :
  re_test (Pattern true r) u = true -> re_test (Pattern true r) (u ++ x) = true.
Proof.
  rewrite !re_test_anchored. intros (s1 & s2 & -> & H).
  exists s1, (s2 ++ x). by rewrite <- app_assoc.
Qed.

(** X3: the validation looks at the start of the string only: whatever is
    appended to a valid URL, the result is valid. *)
Theorem isValidTikTokUrl_ignores_tail (u x : jsstring) :
  isValidTikTokUrl u = true -> isValidTikTokUrl (u ++ x) = true.
Proof.
  unfold isValidTikTokUrl. cbn [existsb]. rewrite !orb_false_r, !orb_true_iff.
  intros [H|[H|[H|H]]]; apply (re_test_anchored_app _ _ x) in H; tauto.
Qed.

Lemma isValidTikTokUrl_ignores_tail_witness :
  isValidTikTokUrl (str "https://vm.tiktok.com/ZMabc" ++ str "<b>not a url</b>") = true.
Proof.
  apply (isValidTikTokUrl_ignores_tail (str "https://vm.tiktok.com/ZMabc")).
  by vm_compute.
Defined.

(** X4: [cleanTikTokUrl] only cuts: its result is a substring of its
    argument. *)
Theorem cleanTikTokUrl_substring (u : jsstring) : contains (cleanTikTokUrl u) u.
Proof.
  destruct (trim_trimmed u) as ((l & r & Hu & _) & _).
  unfold cleanTikTokUrl.
  destruct (includes _ (trim u) || includes _ (trim u)); [by exists l, r|].
  unfold re_exec; simpl anchored; cbv iota.
  destruct (search (body Re.clean_canonical) (trim u)) as [m|] eqn:E;
    [|by exists l, r].
  apply search_Some in E as (pre & s' & o & _ & _ & _ & Heq & _).
  exists (l ++ pre), (fst o ++ r). rewrite Hu at 1. rewrite Heq.
  by rewrite <- !app_assoc.
Qed.

(** ** Canonical links are read in one way *)

Lemma take_while_app_stop p d rest :
  holds p d -> (forall c t, rest = c :: t -> p c = false) ->
  take_while p (d ++ rest) = d /\ drop_while p (d ++ rest) = rest.
Proof.
  intros Hd Hr. induction Hd as [|a d Ha _ [IH1 IH2]]; simpl.
  - destruct rest as [|c t]; simpl; [done|]. by rewrite (Hr c t eq_refl).
  - rewrite Ha. by rewrite IH1, IH2.
Qed.

(** The six ways a canonical link can start differ in their first
    characters. *)
Lemma canonical_lead_eq sch www sch' www' x y :
  sch = [] \/ is_scheme sch -> is_www www ->
  sch' = [] \/ is_scheme sch' -> is_www www' ->
  sch ++ www ++ str "tiktok.com/@" ++ x = sch' ++ www' ++ str "tiktok.com/@" ++ y ->
  sch = sch' /\ www = www' /\ x = y.
Proof.
  intros [->|[->| ->]] [->| ->] [->|[->| ->]] [->| ->] H;
    vm_compute in H; try discriminate H; by simplify_eq.
Qed.

Lemma handle_eq h h' x y :
  holds not_slash h -> holds not_slash h' ->
  h ++ 0x2F :: x = h' ++ 0x2F :: y -> h = h' /\ x = y.
Proof.
  intros Hh. revert h'. induction Hh as [|a h Ha _ IH]; intros h' Hh' H.
  - destruct Hh' as [|b h' Hb _]; simpl in H.
    + by injection H as ->.
    + injection H as <- _. vm_compute in Hb. discriminate Hb.
  - destruct Hh' as [|b h' Hb Hh']; simpl in H.
    + injection H as -> _. vm_compute in Ha. discriminate Ha.
    + injection H as -> H. by destruct (IH _ Hh' H) as [-> ->].
Qed.

Lemma digit_run_eq d d' ra rb :
  holds is_digit d -> holds is_digit d' ->
  (forall c t, ra = c :: t -> is_digit c = false) ->
  (forall c t, rb = c :: t -> is_digit c = false) ->
  d ++ ra = d' ++ rb -> d = d'.
Proof.
  intros Hd. revert d'. induction Hd as [|a d Ha _ IH]; intros d' Hd' Ha' Hb H.
  - destruct Hd' as [|b d' Hb' _]; [done|]. simpl in H.
    rewrite (Ha' _ _ H) in Hb'. done.
  - destruct Hd' as [|b d' Hb' Hd']; simpl in H.
    + symmetry in H. rewrite (Hb _ _ H) in Ha. done.
    + injection H as -> H. f_equal. by apply IH.
Qed.

(** Two canonical links that start at the same place and take every digit
    are the same link. *)
Lemma canonical_link_unique a ra b rb :
  canonical_link a -> canonical_link b ->
  (forall c t, ra = c :: t -> is_digit c = false) ->
  (forall c t, rb = c :: t -> is_digit c = false) ->
  a ++ ra = b ++ rb -> a = b.
Proof.
  intros (sch & ? & -> & Hs & www & h & d & -> & Hw & _ & Hh & _ & Hd).
  intros (sch' & ? & -> & Hs' & www' & h' & d' & -> & Hw' & _ & Hh' & _ & Hd').
  intros Ha Hb H. rewrite <- !app_assoc in H.
  apply canonical_lead_eq in H as (-> & -> & H); try done.
  change (str "/video/") with (0x2F :: str "video/") in H.
  cbn [app] in H.
  apply handle_eq in H as (-> & H); try done.
  apply app_inv_head in H.
  by rewrite (digit_run_eq d d' ra rb).
Qed.

(** ** The identifier of a canonical link *)

Lemma search_id_skip p c s :
  strip_prefix p (c :: s) = None ->
  search (body (Re.id_after p)) (c :: s) = search (body (Re.id_after p)) s.
Proof.
  intros H. cbn [search]. by rewrite exec_here_id_after, H.
Qed.

Lemma search_video_lead sch www x :
  sch = [] \/ is_scheme sch -> is_www www ->
  search (body (Re.id_after id_video)) (sch ++ www ++ str "tiktok.com/@" ++ x)
  = search (body (Re.id_after id_video)) x.
Proof.
  intros [->|[->| ->]] [->| ->];
    match goal with |- search _ ?s = _ =>
      let s' := eval vm_compute in s in change s with s'
    end;
    repeat (rewrite search_id_skip by reflexivity); reflexivity.
Qed.

Lemma search_video_handle h x :
  holds not_slash h ->
  search (body (Re.id_after id_video)) (h ++ x)
  = search (body (Re.id_after id_video)) x.
Proof.
  induction 1 as [|a h Ha _ IH]; [done|].
  cbn [app]. rewrite search_id_skip; [done|].
  unfold id_video. change (str "/video/") with (0x2F :: str "video/").
  cbn [strip_prefix]. unfold not_slash in Ha.
  rewrite N.eqb_sym. by destruct (a =? 0x2F).
Qed.

Lemma search_id_here p d rest :
  d <> [] -> holds is_digit d ->
  (forall c t, rest = c :: t -> is_digit c = false) ->
  exists m, search (body (Re.id_after p)) (p ++ d ++ rest) = Some m /\
            groups m = [d].
Proof.
  intros Hne Hd Hr.
  assert (exec_here (body (Re.id_after p)) (p ++ d ++ rest) = Some (rest, [d]))
    as E.
  { rewrite exec_here_id_after, strip_prefix_app.
    destruct (take_while_app_stop is_digit d rest Hd Hr) as [-> ->].
    by destruct d. }
  destruct (p ++ d ++ rest); cbn [search]; rewrite E; by eexists.
Qed.

(** X5: the identifier of a canonical link is the run of digits it was
    built from, whatever the handle, with or without scheme and [www.], and
    whatever follows, as long as it does not go on with a digit. *)
Theorem extractVideoId_canonical (sch www handle digits rest : jsstring) :
  sch = [] \/ is_scheme sch -> is_www www ->
  holds not_slash handle ->
  digits <> [] -> holds is_digit digits ->
  (forall c t, rest = c :: t -> is_digit c = false) ->
  extractVideoId
    (sch ++ www ++ str "tiktok.com/@" ++ handle ++ str "/video/" ++ digits ++ rest)
  = Some digits.
Proof.
  intros Hs Hw Hh Hne Hd Hr. unfold extractVideoId; cbn [first_match].
  change (re_exec (Re.id_after id_video) ?u)
    with (search (body (Re.id_after id_video)) u).
  rewrite search_video_lead, search_video_handle by done.
  unfold id_video.
  destruct (search_id_here (str "/video/") digits rest Hne Hd Hr) as (m & -> & ->).
  reflexivity.
Qed.

Lemma extractVideoId_canonical_witness :
  extractVideoId
    (str "https://" ++ str "www." ++ str "tiktok.com/@" ++ str "v.1" ++ str "/video/"
     ++ str "42" ++ str "?is_copy_url=1")
  = Some (str "42").
Proof.
  apply (extractVideoId_canonical (str "https://") (str "www.") (str "v.1")
           (str "42") (str "?is_copy_url=1")).
  - right; by right.
  - by right.
  - unfold holds. by repeat constructor.
  - done.
  - unfold holds. by repeat constructor.
  - by intros c t [= <- <-].
Defined.

(** ** Cleaning twice *)

Lemma trim_fixed s :
  (forall c t, s = c :: t -> is_white c = false) ->
  (forall t c, s = t ++ [c] -> is_white c = false) ->
  trim s = s.
Proof.
  intros Hfirst Hlast. unfold trim, trim_start, trim_end.
  destruct s as [|c t]; [done|]. simpl drop_while at 2.
  rewrite (Hfirst c t eq_refl).
  destruct (rev (c :: t)) as [|x l] eqn:E.
  - apply (f_equal (@rev N)) in E. rewrite rev_involutive in E. done.
  - apply (f_equal (@rev N)) in E. rewrite rev_involutive in E. simpl in E.
    simpl. by rewrite (Hlast _ _ E).
Qed.

Lemma trim_idem u : trim (trim u) = trim u.
Proof. destruct (trim_trimmed u) as (_ & ? & ?). by apply trim_fixed. Qed.

Lemma is_digit_not_white c : is_digit c = true -> is_white c = false.
Proof.
  intros H. apply is_alnum_not_white. unfold is_alnum. rewrite H.
  by rewrite orb_true_r.
Qed.

Lemma canonical_link_first r c t :
  canonical_link r -> r = c :: t -> is_white c = false.
Proof.
  intros (sch & ? & -> & Hs & www & h & d & -> & Hw & _) H.
  destruct Hs as [->|[->| ->]], Hw as [->| ->]; by injection H as <- _.
Qed.

Lemma canonical_link_last r t c :
  canonical_link r -> r = t ++ [c] -> is_white c = false.
Proof.
  intros (sch & ? & -> & _ & www & h & d & -> & _ & _ & _ & Hne & Hd) H.
  destruct (exists_last Hne) as (d' & x & ->).
  rewrite !app_assoc in H. apply app_inj_tail in H as [_ <-].
  apply is_digit_not_white. apply Forall_app in Hd as [_ Hd]. by inversion Hd.
Qed.

Lemma trim_canonical_link r : canonical_link r -> trim r = r.
Proof.
  intros H. apply trim_fixed; intros.
  - by eapply canonical_link_first.
  - by eapply canonical_link_last.
Qed.

Lemma cleanTikTokUrl_unfold u :
  cleanTikTokUrl u =
  if includes (str "vm.tiktok.com") (trim u) || includes (str "vt.tiktok.com") (trim u)
  then trim u
  else match search (body Re.clean_canonical) (trim u) with
       | Some m => m0 m
       | None => trim u
       end.
Proof. reflexivity. Qed.

(** The search for a canonical link, on a string that starts with one. *)
Lemma search_clean_at_start a ra m :
  canonical_link a ->
  (forall c t, ra = c :: t -> is_digit c = false) ->
  search (body Re.clean_canonical) (a ++ ra) = Some m ->
  m0 m = a.
Proof.
  intros Ha Hra E.
  apply search_Some in E as (pre & s' & o & _ & E & _ & Heq & Hm & Hleft).
  assert (pre = []) as ->.
  { apply length_zero_iff_nil.
    specialize (Hleft [] a ra eq_refl). simpl in Hleft.
    assert (length pre <= 0)%nat; [|lia].
    apply Hleft. by apply matches_clean_canonical. }
  simpl in Heq. symmetry in Heq.
  apply (canonical_link_unique (m0 m) (fst o) a ra); try done.
  - by apply matches_clean_canonical.
  - by apply exec_here_clean_greedy with (s := s').
Qed.

Lemma includes_false_sub sub s pre mid post :
  includes sub s = false -> s = pre ++ mid ++ post -> includes sub mid = false.
Proof.
  intros H ->. apply not_true_is_false. intros Hc. apply not_true_iff_false in H.
  apply H. apply includes_spec. apply includes_spec in Hc as (a & b & ->).
  exists (pre ++ a), (b ++ post). by rewrite <- !app_assoc.
Qed.

Lemma cleanTikTokUrl_fixed u : cleanTikTokUrl (cleanTikTokUrl u) = cleanTikTokUrl u.
Proof.
  rewrite (cleanTikTokUrl_unfold u).
  destruct (includes _ (trim u) || includes _ (trim u)) eqn:Ei.
  { rewrite cleanTikTokUrl_unfold, trim_idem. by rewrite Ei. }
  destruct (search (body Re.clean_canonical) (trim u)) as [m|] eqn:Es.
  2:{ rewrite cleanTikTokUrl_unfold, trim_idem. by rewrite Ei, Es. }
  apply orb_false_iff in Ei as [E1 E2].
  pose proof Es as Hs.
  apply search_Some in Hs as (pre & s' & o & _ & _ & _ & Heq & Hm & _).
  apply matches_clean_canonical in Hm.
  rewrite cleanTikTokUrl_unfold, (trim_canonical_link _ Hm).
  rewrite (includes_false_sub _ _ _ _ _ E1 Heq), (includes_false_sub _ _ _ _ _ E2 Heq).
  cbn [orb].
  destruct (search (body Re.clean_canonical) (m0 m)) as [m'|] eqn:Es'; [|done].
  apply (search_clean_at_start (m0 m) [] m'); try done.
  by rewrite app_nil_r.
Qed.

(** X6: cleaning is idempotent, so a URL and its cleaned form get the same
    answer from [downloadVideo]. *)
Theorem cleanTikTokUrl_idempotent (u : jsstring) :
  cleanTikTokUrl (cleanTikTokUrl u) = cleanTikTokUrl u /\
  (forall w this t,
     downloadVideo w this (cleanTikTokUrl u) t = downloadVideo w this u t).
Proof.
  split; [apply cleanTikTokUrl_fixed|]. intros w this t.
  unfold downloadVideo, downloadVideo_try. by rewrite cleanTikTokUrl_fixed.
Qed.

(** X7: when the trimmed input starts with a canonical link and names no
    short-link host, [cleanTikTokUrl] returns that link and cuts what follows
    it (a query string, a path, other text), provided the link's digits are
    not followed by one more digit. *)
Theorem cleanTikTokUrl_canonical (u link rest : jsstring) :
  canonical_link link ->
  (forall c t, rest = c :: t -> is_digit c = false) ->
  trim u = link ++ rest ->
  ~ contains (str "vm.tiktok.com") (trim u) ->
  ~ contains (str "vt.tiktok.com") (trim u) ->
  cleanTikTokUrl u = link.
Proof.
  intros Hl Hr Ht N1 N2. rewrite cleanTikTokUrl_unfold.
  rewrite <- contains_spec in N1, N2. apply not_true_is_false in N1, N2.
  rewrite N1, N2. cbn [orb]. rewrite Ht.
  destruct (search (body Re.clean_canonical) (link ++ rest)) as [m|] eqn:Es.
  - by apply (search_clean_at_start link rest m).
  - apply search_None in Es. destruct Es. exists [], link, rest.
    split; [done|]. by apply matches_clean_canonical.
Qed.

Lemma cleanTikTokUrl_canonical_witness :
  cleanTikTokUrl (str "  https://www.tiktok.com/@user/video/123?lang=en ")
  = str "https://www.tiktok.com/@user/video/123".
Proof.
  apply (cleanTikTokUrl_canonical
           (str "  https://www.tiktok.com/@user/video/123?lang=en ")
           (str "https://www.tiktok.com/@user/video/123") (str "?lang=en")).
  - exists (str "https://"), (str "www.tiktok.com/@user/video/123").
    split; [reflexivity|]. split; [right; by right|].
    exists (str "www."), (str "user"), (str "123").
    split; [reflexivity|]. split; [by right|].
    repeat split; try done; unfold holds; by repeat constructor.
  - by intros c t [= <- <-].
  - by vm_compute.
  - rewrite <- contains_spec. by vm_compute.
  - rewrite <- contains_spec. by vm_compute.
Defined.

(** * Further properties of the asynchronous methods *)

(** ** The mirror call, in full *)

(** X8: without [includeWatermark], when the page gives its data, the
    [id] found in the page has a text for the mirror URL, and the mirror
    answers with a truthy [video.noWatermark], [downloadVideo] answers with
    the success envelope whose [watermarkFree] is that value, beside the
    video and audio URLs; the mirror is asked once, about that text, and
    nothing is logged. *)
Theorem downloadVideo_with_mirror (w : World) (this : Options) (url : jsstring)
    (t t1 : list event) (v : TikTokVideoInfo) (idText : jsstring)
    (response_data : jsval) :
  includeWatermark this = false ->
  isValidTikTokUrl (cleanTikTokUrl url) = true ->
  is_Some (extractVideoId (cleanTikTokUrl url)) ->
  fetchVideoData w this (cleanTikTokUrl url) t = (t1, Ok (Some v)) ->
  template_text w (id v) = Ok idText ->
  axios_get w (mirror_api_url idText) (mirror_headers this) (timeout this)
  = Ok response_data ->
  truthy (noWatermark_of response_data) = true ->
  downloadVideo w this url t
  = (t1 ++ [EvGet (mirror_api_url idText) (mirror_headers this) (timeout this)],
     Ok (success_result v
           {| video := videoUrl v;
              audio := music_url (music v);
              watermarkFree := Some (noWatermark_of response_data) |})).
Proof.
  intros Hw Hv Hi Hf Hid Ha Ht.
  destruct (downloadVideo_fetched w this url t Hv Hi)
    as (t1' & videoData & Hf' & Hd).
  rewrite Hf in Hf'. injection Hf' as <- <-.
  destruct Hd as (t2 & urls & Hu & ->).
  rewrite extractDownloadUrls_run, Hw in Hu.
  unfold mirror_value, mirror_events in Hu. rewrite Hid in Hu.
  cbv beta iota in Hu. rewrite Ha in Hu.
  cbv beta iota in Hu. rewrite !Ht in Hu.
  by injection Hu as <- <-.
Qed.

Lemma downloadVideo_with_mirror_witness :
  downloadVideo (Demo.world (Ok Demo.mirror_answer)) (Demo.options false) Demo.url []
  = ([page_request (Demo.options false) Demo.url]
     ++ [EvGet (mirror_api_url (str "111222333"))
           (mirror_headers (Demo.options false)) 30000],
     Ok (success_result Demo.info
           {| video := videoUrl Demo.info;
              audio := music_url (music Demo.info);
              watermarkFree := Some (noWatermark_of Demo.mirror_answer) |})).
Proof.
  apply (downloadVideo_with_mirror (Demo.world (Ok Demo.mirror_answer))
           (Demo.options false) Demo.url []
           [page_request (Demo.options false) Demo.url] Demo.info
           (str "111222333") Demo.mirror_answer).
  - reflexivity.
  - by vm_compute.
  - vm_compute. by eexists.
  - by vm_compute.
  - reflexivity.
  - by vm_compute.
  - by vm_compute.
Defined.

(** ** The page fetch, in full *)

(** Decide the next test or property read of a computation. *)
Ltac step :=
  run; cbn [negb];
  first
    [ match goal with |- context [truthy ?v] => destruct (truthy v) end
    | match goal with |- context [get_prop ?v ?k] => destruct (get_prop v k) end
    | match goal with |- context [axios_get ?w ?u ?h ?n] =>
        destruct (axios_get w u h n) end
    | match goal with |- context [cheerio_html ?w ?d ?s] =>
        destruct (cheerio_html w d s) as [[[|? ?]|]|] end
    | match goal with |- context [JSON_parse ?w ?s] =>
        destruct (JSON_parse w s) end ].

(** The [try] block of [fetchVideoData] sends the request and does nothing
    else to the outside. *)
Lemma fetchVideoData_try_trace w this url t :
  fst (fetchVideoData_try w this url t) = t ++ [page_request this url].
Proof.
  unfold fetchVideoData_try, project, page_request.
  repeat step; reflexivity.
Qed.

Lemma fetchVideoData_run w this url t :
  fetchVideoData w this url t =
  match snd (fetchVideoData_try w this url t) with
  | Ok v => (t ++ [page_request this url], Ok (Some v))
  | Throw e =>
      (t ++ [page_request this url;
             EvConsoleError (str "Error fetching video data:") e],
       Ok None)
  end.
Proof.
  pose proof (fetchVideoData_try_trace w this url t) as Ht.
  unfold fetchVideoData. run.
  destruct (fetchVideoData_try w this url t) as [t' [v|e]]; simpl in *; subst;
    [done|]. by rewrite <- app_assoc.
Qed.

(** X9: [fetchVideoData] sends one request, to the URL it is given, with
    the configured headers and timeout, and never a second one: it answers
    with the video info after that request alone, or with [null] after that
    request and one logged error. *)
Theorem fetchVideoData_one_request (w : World) (this : Options) (url : jsstring)
    (t : list event) :
  (exists v,
     fetchVideoData w this url t
     = (t ++ [EvGet url (page_headers this) (timeout this)], Ok (Some v))) \/
  (exists e,
     fetchVideoData w this url t
     = (t ++ [EvGet url (page_headers this) (timeout this);
              EvConsoleError (str "Error fetching video data:") e],
        Ok None)).
Proof.
  rewrite fetchVideoData_run.
  destruct (snd (fetchVideoData_try w this url t)) as [v|e]; [left|right];
    by eexists.
Qed.

(** X10: when the request for the page throws, [fetchVideoData] logs that
    exception and answers [null], and [downloadVideo], for a valid URL with
    an identifier, answers "Failed to fetch video data" with its fixed
    detail; the mirror is not asked. *)
Theorem fetchVideoData_transport_error (w : World) (this : Options)
    (url : jsstring) (t : list event) (e : exn) :
  axios_get w (cleanTikTokUrl url) (page_headers this) (timeout this) = Throw e ->
  isValidTikTokUrl (cleanTikTokUrl url) = true ->
  is_Some (extractVideoId (cleanTikTokUrl url)) ->
  fetchVideoData w this (cleanTikTokUrl url) t
  = (t ++ [page_request this (cleanTikTokUrl url);
           EvConsoleError (str "Error fetching video data:") e],
     Ok None) /\
  downloadVideo w this url t
  = (t ++ [page_request this (cleanTikTokUrl url);
           EvConsoleError (str "Error fetching video data:") e],
     Ok no_data_result).
Proof.
  intros Ha Hv Hi.
  assert (fetchVideoData w this (cleanTikTokUrl url) t
          = (t ++ [page_request this (cleanTikTokUrl url);
                   EvConsoleError (str "Error fetching video data:") e],
             Ok None)) as Hf.
  { rewrite fetchVideoData_run. unfold fetchVideoData_try. run.
    by rewrite Ha. }
  split; [done|].
  destruct (downloadVideo_fetched w this url t Hv Hi)
    as (t1 & videoData & Hf' & Hd).
  rewrite Hf in Hf'. injection Hf' as <- <-. done.
Qed.

Lemma fetchVideoData_transport_error_witness :
  fetchVideoData Demo.offline (Demo.options false) (cleanTikTokUrl Demo.url) []
  = ([] ++ [page_request (Demo.options false) (cleanTikTokUrl Demo.url);
            EvConsoleError (str "Error fetching video data:")
              (ErrorObj (str "timeout of 30000ms exceeded"))],
     Ok None) /\
  downloadVideo Demo.offline (Demo.options false) Demo.url []
  = ([] ++ [page_request (Demo.options false) (cleanTikTokUrl Demo.url);
            EvConsoleError (str "Error fetching video data:")
              (ErrorObj (str "timeout of 30000ms exceeded"))],
     Ok no_data_result).
Proof.
  apply (fetchVideoData_transport_error Demo.offline (Demo.options false)
           Demo.url [] (ErrorObj (str "timeout of 30000ms exceeded"))).
  - reflexivity.
  - by vm_compute.
  - vm_compute. by eexists.
Defined.

(** X11: a page without the rehydration script, or with an empty one, gives
    [null], whatever [JSON.parse] would do; the error logged says "Could not
    find video data in page". *)
Theorem fetchVideoData_no_script (w : World) (this : Options) (url : jsstring)
    (t : list event) (response_data : jsval) :
  axios_get w url (page_headers this) (timeout this) = Ok response_data ->
  cheerio_html w response_data rehydration_selector = Ok None \/
  cheerio_html w response_data rehydration_selector = Ok (Some []) ->
  fetchVideoData w this url t
  = (t ++ [page_request this url;
           EvConsoleError (str "Error fetching video data:")
             (ErrorObj (str "Could not find video data in page"))],
     Ok None).
Proof.
  intros Ha Hc. rewrite fetchVideoData_run. unfold fetchVideoData_try. run.
  rewrite Ha. run. by destruct Hc as [-> | ->].
Qed.

Lemma fetchVideoData_no_script_witness :
  fetchVideoData Fixture.no_script_page Fixture.options Demo.url []
  = ([] ++ [page_request Fixture.options Demo.url;
            EvConsoleError (str "Error fetching video data:")
              (ErrorObj (str "Could not find video data in page"))],
     Ok None).
Proof.
  apply (fetchVideoData_no_script Fixture.no_script_page
           Fixture.options Demo.url [] (JStr (str "<html></html>"))).
  - reflexivity.
  - by left.
Defined.

(** X12: when the embedded JSON has no truthy [webapp.video-detail] under
    [__DEFAULT_SCOPE__], or that value has no truthy [itemInfo],
    [fetchVideoData] gives [null] and logs "Video data structure is
    invalid". *)
Theorem fetchVideoData_invalid_structure (w : World) (this : Options)
    (url : jsstring) (t : list event) (root videoData : jsval) :
  page_embeds w this url root ->
  detail_of root = Some videoData ->
  truthy videoData = false \/
  (exists itemInfo,
     get_prop videoData (str "itemInfo") = Ok itemInfo /\
     truthy itemInfo = false) ->
  fetchVideoData w this url t
  = (t ++ [page_request this url;
           EvConsoleError (str "Error fetching video data:")
             (ErrorObj (str "Video data structure is invalid"))],
     Ok None).
Proof.
  intros (response_data & [|c script] & Ha & Hc & Hne & Hj) Hd Hbad; [done|].
  unfold detail_of in Hd. destruct root as [| | | | | |r]; try done.
  destruct (r !! str "__DEFAULT_SCOPE__") as [[| | | | | |scope]|] eqn:E1;
    try done.
  injection Hd as <-.
  rewrite fetchVideoData_run. unfold fetchVideoData_try. run.
  rewrite Ha. run. rewrite Hc. run. rewrite Hj. run.
  cbn [get_prop]. rewrite E1.
  change (default JUndefined (Some (JObj scope))) with (JObj scope).
  run. cbn [get_prop]. run.
  destruct (truthy (default JUndefined (scope !! str "webapp.video-detail")))
    eqn:Et; cbn [negb]; run; [|done].
  destruct Hbad as [?|(itemInfo & -> & ->)]; [done|]. by run.
Qed.

Lemma fetchVideoData_invalid_structure_witness :
  fetchVideoData Fixture.other_page
    Fixture.options Demo.url []
  = ([] ++ [page_request Fixture.options Demo.url;
            EvConsoleError (str "Error fetching video data:")
              (ErrorObj (str "Video data structure is invalid"))],
     Ok None).
Proof.
  apply (fetchVideoData_invalid_structure
           Fixture.other_page
           Fixture.options Demo.url [] Fixture.other_route JUndefined).
  - exists (JStr (str "<html></html>")), Fixture.other_route_text. by vm_compute.
  - by vm_compute.
  - by left.
Defined.

(** X13: the defaults of the counters do not cover a missing [stats]: when
    the [itemStruct] of the page has no [stats], no [music] or no [video]
    property, [fetchVideoData] gives [null] and logs the error of the
    failed property read. *)
Theorem fetchVideoData_missing_part (w : World) (this : Options)
    (url : jsstring) (t : list event) (root : jsval)
    (item : gmap jsstring jsval) :
  page_embeds w this url root ->
  item_of root = Some item ->
  item !! str "stats" = None \/ item !! str "music" = None \/
  item !! str "video" = None ->
  exists e,
    fetchVideoData w this url t
    = (t ++ [page_request this url;
             EvConsoleError (str "Error fetching video data:") e],
       Ok None).
Proof.
  intros Hp Hi Hmiss. rewrite fetchVideoData_run.
  rewrite (fetchVideoData_try_item _ _ _ _ _ _ Hp Hi).
  assert (exists e, snd (project (JObj item) (t ++ [EvGet url (page_headers this)
                                                      (timeout this)]))
                    = Throw e) as [e ->]; [|by eexists].
  unfold project. run. cbn [get_prop].
  destruct Hmiss as [->|[->| ->]];
    change (default JUndefined None) with JUndefined;
    repeat (cbn [get_prop]; run;
            try match goal with |- context [get_prop (default ?d ?o) ?k] =>
                  destruct (get_prop (default d o) k) end);
    by eexists.
Qed.

Lemma fetchVideoData_missing_part_witness :
  exists e,
    fetchVideoData
      Fixture.bare_page
      Fixture.options Demo.url []
    = ([] ++ [page_request Fixture.options Demo.url;
              EvConsoleError (str "Error fetching video data:") e],
       Ok None).
Proof.
  apply (fetchVideoData_missing_part
           Fixture.bare_page
           Fixture.options Demo.url []
           (Fixture.wrap (JObj Fixture.bare_item)) Fixture.bare_item).
  - exists (JStr (str "<html></html>")), Fixture.bare_text. by vm_compute.
  - by vm_compute.
  - left. by vm_compute.
Defined.

(** ** What a call sends and what it answers *)

Lemma requests_app a b : requests (a ++ b) = requests a ++ requests b.
Proof. unfold requests. apply List.filter_app. Qed.

Lemma requests_mirror_events w this videoId :
  requests (mirror_events w this videoId) =
  match template_text w videoId with
  | Ok idText => [mirror_request this idText]
  | Throw _ => []
  end.
Proof.
  unfold mirror_events, mirror_request.
  destruct (template_text w videoId) as [idText|e]; [|done].
  by destruct (axios_get w _ _ _).
Qed.

(** [downloadVideo], step by step. *)
Lemma downloadVideo_run w this url t :
  downloadVideo w this url t =
  if negb (isValidTikTokUrl (cleanTikTokUrl url)) then (t, Ok invalid_url_result)
  else if no_id (extractVideoId (cleanTikTokUrl url)) then (t, Ok no_id_result)
  else
    match snd (fetchVideoData_try w this (cleanTikTokUrl url) t) with
    | Throw e =>
        (t ++ [page_request this (cleanTikTokUrl url);
               EvConsoleError (str "Error fetching video data:") e],
         Ok no_data_result)
    | Ok v =>
        if includeWatermark this
        then (t ++ [page_request this (cleanTikTokUrl url)],
              Ok (success_result v (plain_urls v)))
        else (t ++ page_request this (cleanTikTokUrl url)
                :: mirror_events w this (id v),
              Ok (success_result v
                    {| video := videoUrl v;
                       audio := music_url (music v);
                       watermarkFree :=
                         if truthy (mirror_value w this (id v))
                         then Some (mirror_value w this (id v))
                         else None |}))
    end.
Proof.
  unfold downloadVideo, downloadVideo_guard, downloadVideo_try.
  destruct (isValidTikTokUrl (cleanTikTokUrl url)); [|done]. cbn [negb].
  destruct (no_id (extractVideoId (cleanTikTokUrl url))); [done|].
  unfold try_catch, bind, ret. rewrite fetchVideoData_run.
  destruct (snd (fetchVideoData_try w this (cleanTikTokUrl url) t)) as [v|e];
    [|done].
  rewrite extractDownloadUrls_run.
  destruct (includeWatermark this); [done|]. by rewrite <- app_assoc.
Qed.

(** The outcomes of [downloadVideo] with the events each one adds. *)
Lemma downloadVideo_outcomes w this url t :
  exists evs r,
    downloadVideo w this url t = (t ++ evs, Ok r) /\
    ((evs = [] /\ (r = invalid_url_result \/ r = no_id_result)) \/
     (requests evs = [page_request this (cleanTikTokUrl url)] /\
      (r = no_data_result \/
       (includeWatermark this = true /\
        exists v, r = success_result v (plain_urls v)))) \/
     (exists v urls,
        requests evs = page_request this (cleanTikTokUrl url)
                       :: requests (mirror_events w this (id v)) /\
        includeWatermark this = false /\
        r = success_result v urls)).
Proof.
  rewrite downloadVideo_run.
  destruct (isValidTikTokUrl (cleanTikTokUrl url)); cbn [negb].
  2:{ exists [], invalid_url_result. rewrite app_nil_r. by auto. }
  destruct (no_id (extractVideoId (cleanTikTokUrl url))).
  { exists [], no_id_result. rewrite app_nil_r. by auto. }
  destruct (snd (fetchVideoData_try w this (cleanTikTokUrl url) t)) as [v|e].
  - destruct (includeWatermark this) eqn:Hw.
    + eexists _, _. split; [done|]. right; left. split; [done|]. right. by eauto.
    + eexists _, _. split; [done|]. right; right. by eexists v, _.
  - eexists _, _. split; [done|]. right; left. split; [done|]. by left.
Qed.

(** X14: a call of [downloadVideo] sends no request when the URL is
    invalid or has no identifier. For a valid URL with an identifier it
    sends one request, for the cleaned URL, when it fails (the page gives no
    data), when [includeWatermark] is set, or when the [id] found in the
    page has no text for the mirror URL; and otherwise two, the second one
    to the mirror about that [id]. Every request carries the configured
    timeout and User-Agent; a failure never follows a mirror request. *)
Theorem downloadVideo_requests (w : World) (this : Options) (url : jsstring)
    (t : list event) :
  let c := cleanTikTokUrl url in
  let page := EvGet c (page_headers this) (timeout this) in
  exists evs r,
    downloadVideo w this url t = (t ++ evs, Ok r) /\
    (isValidTikTokUrl c = false \/ extractVideoId c = None ->
     requests evs = [] /\ success r = false) /\
    (isValidTikTokUrl c = true -> is_Some (extractVideoId c) ->
     (success r = false -> requests evs = [page]) /\
     (success r = true ->
      exists v urls, data r = Some {| videoInfo := v; downloadUrls := urls |}) /\
     (includeWatermark this = true -> requests evs = [page]) /\
     (forall v urls,
        includeWatermark this = false ->
        data r = Some {| videoInfo := v; downloadUrls := urls |} ->
        match template_text w (id v) with
        | Throw _ => requests evs = [page]
        | Ok idText =>
            requests evs
            = [page;
               EvGet (mirror_api_url idText)
                 ((str "User-Agent", userAgent this) :: []) (timeout this)]
        end)).
Proof.
  intros c page. rewrite downloadVideo_run. fold c.
  destruct (isValidTikTokUrl c) eqn:Ev; cbn [negb].
  2:{ exists [], invalid_url_result. rewrite app_nil_r.
      split; [done|]. split; [done|]. done. }
  destruct (extractVideoId c) as [d|] eqn:Ed.
  2:{ exists [], no_id_result. rewrite app_nil_r.
      split; [done|]. split; [done|]. by intros _ [? ?]. }
  rewrite <- Ed, no_id_Some by (rewrite Ed; by eexists). rewrite Ed.
  destruct (snd (fetchVideoData_try w this c t)) as [v|e].
  - destruct (includeWatermark this) eqn:Hw.
    + eexists _, _. split; [done|]. split; [by intros [?|?]|].
      intros _ _. split; [done|]. split; [by eauto|]. split; [done|]. done.
    + eexists _, _. split; [done|]. split; [by intros [?|?]|].
      intros _ _. split; [done|]. split; [by eauto|]. split; [done|].
      intros v' urls' _ [= <- _].
      change (requests (?a :: ?l)) with (a :: requests l).
      rewrite requests_mirror_events.
      by destruct (template_text w (id v)).
  - eexists _, _. split; [done|]. split; [by intros [?|?]|].
    intros _ _. split; [done|]. split; [done|]. split; [done|]. done.
Qed.

(** X15: for a string argument the [catch] of [downloadVideo] is never
    taken: the envelope is one of the three fail-fast envelopes or the
    success envelope, never "An error occurred while processing the
    video". *)
Theorem downloadVideo_four_envelopes (w : World) (this : Options)
    (url : jsstring) (t : list event) :
  exists t' r,
    downloadVideo w this url t = (t', Ok r) /\
    (r = invalid_url_result \/ r = no_id_result \/ r = no_data_result \/
     exists v urls, r = success_result v urls) /\
    message r <> str "An error occurred while processing the video".
Proof.
  destruct (downloadVideo_outcomes w this url t) as (evs & r & H & Hcases).
  exists (t ++ evs), r. split; [done|].
  assert (r = invalid_url_result \/ r = no_id_result \/ r = no_data_result \/
          exists v urls, r = success_result v urls) as Hr.
  { destruct Hcases as [(_ & [-> | ->])|[(_ & [-> | (_ & v & ->)])|
                        (v & urls & _ & _ & ->)]]; eauto 6. }
  split; [done|].
  destruct Hr as [->|[->|[->|(v & urls & ->)]]]; intros E; vm_compute in E;
    discriminate E.
Qed.

(** ** Values copied from the page *)

Lemma fetchVideoData_objects w this url t root item stats music video :
  page_embeds w this url root ->
  item_of root = Some item ->
  item !! str "stats" = Some (JObj stats) ->
  item !! str "music" = Some (JObj music) ->
  item !! str "video" = Some (JObj video) ->
  exists v,
    fetchVideoData w this url t = (t ++ [page_request this url], Ok (Some v)) /\
    snd (project (JObj item) t) = Ok v.
Proof.
  intros Hp Hi Hs Hm Hv. rewrite fetchVideoData_run.
  rewrite (fetchVideoData_try_item _ _ _ _ _ _ Hp Hi).
  rewrite !(project_objects _ _ _ _ _ Hs Hm Hv). by eexists.
Qed.

(** X16: the envelope's URLs are copied from the page without a check:
    for a valid URL with an identifier whose page leads to an [itemStruct]
    with [stats],
    [music] and [video] objects, [downloadVideo] answers with the success
    envelope, whose [video] URL is [video.playAddr] and whose [audio] URL is
    [music.playUrl], each [undefined] when the page has no such field. *)
Theorem downloadVideo_copies_urls (w : World) (this : Options) (url : jsstring)
    (t : list event) (root : jsval)
    (item stats_obj music_obj video_obj : gmap jsstring jsval) :
  isValidTikTokUrl (cleanTikTokUrl url) = true ->
  is_Some (extractVideoId (cleanTikTokUrl url)) ->
  page_embeds w this (cleanTikTokUrl url) root ->
  item_of root = Some item ->
  item !! str "stats" = Some (JObj stats_obj) ->
  item !! str "music" = Some (JObj music_obj) ->
  item !! str "video" = Some (JObj video_obj) ->
  exists t' v urls,
    downloadVideo w this url t = (t', Ok (success_result v urls)) /\
    id v = default JUndefined (item !! str "id") /\
    video urls = default JUndefined (video_obj !! str "playAddr") /\
    audio urls = default JUndefined (music_obj !! str "playUrl").
Proof.
  intros Hv Hi Hp Hit Hs Hm Hvi.
  destruct (fetchVideoData_objects _ _ _ t _ _ _ _ _ Hp Hit Hs Hm Hvi)
    as (v & Hf & Hproj).
  rewrite (project_objects _ _ _ _ _ Hs Hm Hvi) in Hproj.
  injection Hproj as <-.
  destruct (downloadVideo_fetched w this url t Hv Hi)
    as (t1 & videoData & Hf' & Hd).
  rewrite Hf in Hf'. injection Hf' as <- <-.
  destruct Hd as (t2 & urls & Hu & ->).
  eexists _, _, urls. split; [done|]. split; [done|].
  rewrite extractDownloadUrls_run in Hu.
  destruct (includeWatermark this); by injection Hu as <- <-.
Qed.

Lemma downloadVideo_copies_urls_witness :
  exists t' v urls,
    downloadVideo
      Fixture.odd_page
      Fixture.options Demo.url []
    = (t', Ok (success_result v urls)) /\
    id v = JNum 5 /\ video urls = JUndefined /\ audio urls = JUndefined.
Proof.
  refine (downloadVideo_copies_urls
            Fixture.odd_page
            Fixture.options Demo.url []
            (Fixture.wrap (JObj Fixture.odd_item)) Fixture.odd_item
            Fixture.odd_stats ∅
            (list_to_map [(str "cover", JStr (str "https://cdn/c.jpg"))])
            _ _ _ _ _ _ _).
  - by vm_compute.
  - vm_compute. by eexists.
  - exists (JStr (str "<html></html>")), Fixture.odd_text. by vm_compute.
  - by vm_compute.
  - by vm_compute.
  - by vm_compute.
  - by vm_compute.
Defined.

(** X17: the defaults of [fetchVideoData] are those of [||]: a counter is
    the field of [stats] when that is truthy, whatever its type, and 0 when
    it is absent or falsy ([null], [false], [0], the empty string); title
    and description are [desc] when that is truthy and the empty string
    otherwise. *)
Theorem fetchVideoData_falsy_defaults (w : World) (this : Options)
    (url : jsstring) (t : list event) (root : jsval)
    (item stats_obj music_obj video_obj : gmap jsstring jsval) :
  page_embeds w this url root ->
  item_of root = Some item ->
  item !! str "stats" = Some (JObj stats_obj) ->
  item !! str "music" = Some (JObj music_obj) ->
  item !! str "video" = Some (JObj video_obj) ->
  let counter k :=
    let x := default JUndefined (stats_obj !! str k) in
    if truthy x then x else JNum 0 in
  let text :=
    let x := default JUndefined (item !! str "desc") in
    if truthy x then x else JStr [] in
  exists v,
    fetchVideoData w this url t = (t ++ [page_request this url], Ok (Some v)) /\
    playCount v = counter "playCount"%string /\
    likeCount v = counter "diggCount"%string /\
    commentCount v = counter "commentCount"%string /\
    shareCount v = counter "shareCount"%string /\
    title v = text /\ description v = text.
Proof.
  intros Hp Hit Hs Hm Hvi counter text.
  destruct (fetchVideoData_objects _ _ _ t _ _ _ _ _ Hp Hit Hs Hm Hvi)
    as (v & Hf & Hproj).
  rewrite (project_objects _ _ _ _ _ Hs Hm Hvi) in Hproj.
  injection Hproj as <-. eexists. split; [done|]. done.
Qed.

Lemma fetchVideoData_falsy_defaults_witness :
  exists v,
    fetchVideoData
      Fixture.odd_page
      Fixture.options Demo.url []
    = ([] ++ [page_request Fixture.options Demo.url], Ok (Some v)) /\
    playCount v = JStr (str "12") /\
    likeCount v = JNum 0 /\
    commentCount v = JNum 0 /\
    shareCount v = JNum 0 /\
    title v = JStr [] /\ description v = JStr [].
Proof.
  refine (fetchVideoData_falsy_defaults
            Fixture.odd_page
            Fixture.options Demo.url []
            (Fixture.wrap (JObj Fixture.odd_item)) Fixture.odd_item
            Fixture.odd_stats ∅
            (list_to_map [(str "cover", JStr (str "https://cdn/c.jpg"))])
            _ _ _ _ _).
  - exists (JStr (str "<html></html>")), Fixture.odd_text. by vm_compute.
  - by vm_compute.
  - by vm_compute.
  - by vm_compute.
  - by vm_compute.
Defined.

(** ** Short links in the middle, and the unused option *)

(** X18: text in front of a short link is not cut: when the trimmed input
    names a short-link host and does not start with [http://] or
    [https://], [downloadVideo] answers "Invalid TikTok URL provided" and
    sends nothing. *)
Theorem downloadVideo_short_link_not_first (w : World) (this : Options)
    (u : jsstring) (t : list event) :
  contains (str "vm.tiktok.com") (trim u) \/
  contains (str "vt.tiktok.com") (trim u) ->
  (forall sch rest, is_scheme sch -> trim u <> sch ++ rest) ->
  cleanTikTokUrl u = trim u /\
  downloadVideo w this u t = (t, Ok invalid_url_result).
Proof.
  intros Hc Hn.
  assert (cleanTikTokUrl u = trim u) as Hclean.
  { rewrite cleanTikTokUrl_unfold. rewrite <- !contains_spec in Hc.
    destruct Hc as [-> | ->]; by rewrite ?orb_true_r. }
  split; [done|]. apply downloadVideo_invalid. rewrite Hclean.
  apply not_true_is_false. intros Hv.
  apply isValidTikTokUrl_forms in Hv as (sch & b & rest & Heq & Hs & _).
  by apply (Hn sch (b ++ rest)).
Qed.

Lemma downloadVideo_short_link_not_first_witness :
  cleanTikTokUrl (str "watch https://vm.tiktok.com/ZMabc")
  = trim (str "watch https://vm.tiktok.com/ZMabc") /\
  downloadVideo Demo.mirror_down (Demo.options false)
    (str "watch https://vm.tiktok.com/ZMabc") []
  = ([], Ok invalid_url_result).
Proof.
  apply (downloadVideo_short_link_not_first Demo.mirror_down (Demo.options false)
           (str "watch https://vm.tiktok.com/ZMabc") []).
  - left. rewrite <- contains_spec. by vm_compute.
  - intros sch rest [-> | ->] H; vm_compute in H; discriminate H.
Defined.

(** X19: the [quality] option is never read: two downloaders that differ
    in it alone answer every call alike, with the same requests. *)
Theorem downloadVideo_ignores_quality (w : World) (include : bool)
    (q q' : Quality) (ms : Z) (agent : jsstring) (url : jsstring)
    (t : list event) :
  downloadVideo w
    {| includeWatermark := include; quality := q; timeout := ms; userAgent := agent |}
    url t
  = downloadVideo w
      {| includeWatermark := include; quality := q'; timeout := ms; userAgent := agent |}
      url t.
Proof. reflexivity. Qed.

(** ** The default configuration *)

(** X20: a downloader made by [createTikTokDownloader] without options
    sends every request with a timeout of 30000 ms and, as its first header,
    a User-Agent that is the string of the [user-agents] module when that
    module loads and the fixed Chrome string otherwise. *)
Theorem createTikTokDownloader_requests (w : World) (url : jsstring)
    (t : list event) :
  exists evs r,
    downloadVideo w (createTikTokDownloader w None) url t = (t ++ evs, Ok r) /\
    Forall (fun ev =>
              exists u headers,
                ev = EvGet u headers 30000 /\
                head headers
                = Some (str "User-Agent",
                        default default_user_agent (user_agents w)))
           (requests evs).
Proof.
  destruct (downloadVideo_outcomes w (createTikTokDownloader w None) url t)
    as (evs & r & H & Hcases).
  exists evs, r. split; [done|].
  destruct Hcases as [(-> & _)|[(-> & _)|(v & urls & -> & _)]].
  - constructor.
  - repeat constructor. by eexists _, _.
  - rewrite requests_mirror_events.
    destruct (template_text w (id v)); repeat constructor; by eexists _, _.
Qed.
